(** * The demo API store (src/api.py) and the task summary (src/cli.py)

    A shallow embedding of the in-memory entity store behind the FastAPI
    endpoints, of its query and cascade-delete logic, and of
    [TaskManager.get_user_task_summary], followed by the properties of the
    store that the design document states. *)

From Stdlib Require Import ZArith Floats.SpecFloat.
From stdpp Require Import base decidable option strings numbers pretty list.

Local Open Scope string_scope.
Local Open Scope Z_scope.
Local Open Scope list_scope.

(** ** Python dictionaries

    A [Dict[str, V]] keeps its bindings in insertion order and holds a key
    at most once.  It is modelled as the list of its items, oldest first;
    uniqueness of the keys is the representation invariant [dict_wf]. *)

Abbreviation dict V := (list (string * V)).

(** [d.keys()], [d.values()] and [d.items()], all in insertion order. *)
Definition dict_keys {V} (d : dict V) : list string := d.*1.
Definition dict_values {V} (d : dict V) : list V := d.*2.
Definition dict_items {V} (d : dict V) : list (string * V) := d.
Arguments dict_keys {V} d : simpl never.
Arguments dict_values {V} d : simpl never.

Definition dict_wf {V} (d : dict V) : Prop := NoDup (dict_keys d).

(** [k in d] *)
Definition dict_contains {V} (k : string) (d : dict V) : bool :=
  bool_decide (k ∈ dict_keys d).

(** [d[k]] as an expression; [None] stands for [KeyError]. *)
Fixpoint dict_getitem {V} (k : string) (d : dict V) : option V :=
  match d with
  | [] => None
  | (k', v) :: d' => if decide (k' = k) then Some v else dict_getitem k d'
  end.

(** [d[k] = v]: an existing key keeps its position, a new key goes last. *)
Fixpoint dict_setitem {V} (k : string) (v : V) (d : dict V) : dict V :=
  match d with
  | [] => [(k, v)]
  | (k', v') :: d' =>
      if decide (k' = k) then (k, v) :: d' else (k', v') :: dict_setitem k v d'
  end.

(** [del d[k]]; [None] stands for [KeyError]. *)
Fixpoint dict_delitem {V} (k : string) (d : dict V) : option (dict V) :=
  match d with
  | [] => None
  | (k', v') :: d' =>
      if decide (k' = k) then Some d' else cons (k', v') <$> dict_delitem k d'
  end.

(** ** Exceptions and the store monad *)

Inductive exn : Type :=
  | HTTPException (status_code : Z) (detail : string)
  | KeyError (key : string).

(** The error conditions of the design document, as the transport layer
    tells them apart: by status code. *)
Definition NotFound (e : exn) : Prop :=
  match e with HTTPException 404 _ => True | _ => False end.
Definition InvalidReference (e : exn) : Prop :=
  match e with HTTPException 400 _ => True | _ => False end.

Inductive outcome (A : Type) : Type :=
  | Return (a : A)
  | Raise (e : exn).
Arguments Return {A} a.
Arguments Raise {A} e.

Module api.

(** Request bodies. *)
Module User.
Record t : Type := mk { name : string; email : string; age : option Z }.
End User.

Module Task.
Record t : Type := mk {
  title : string;
  description : option string;
  completed : bool;
  user_id : option string
}.
End Task.

(** Stored records and response bodies.  The dictionaries kept in
    [users_db] and [tasks_db] are [model.dict()] extended with the key
    [id]; they have exactly the fields of the response models, so
    building a [UserResponse] or a [TaskResponse] from the stored
    dictionary is the identity on them. *)
Module UserResponse.
Record t : Type := mk {
  id : string; name : string; email : string; age : option Z
}.
End UserResponse.

Module TaskResponse.
Record t : Type := mk {
  id : string;
  title : string;
  description : option string;
  completed : bool;
  user_id : option string
}.
End TaskResponse.

#[global] Instance User_eq_dec : EqDecision User.t.
Proof. solve_decision. Defined.
#[global] Instance Task_eq_dec : EqDecision Task.t.
Proof. solve_decision. Defined.
#[global] Instance UserResponse_eq_dec : EqDecision UserResponse.t.
Proof. solve_decision. Defined.
#[global] Instance TaskResponse_eq_dec : EqDecision TaskResponse.t.
Proof. solve_decision. Defined.

(** The module-level state: the two collections, and how many
    identifiers the process has drawn from [uuid.uuid4] so far. *)
Record State : Type := mkState {
  users_db : dict UserResponse.t;
  tasks_db : dict TaskResponse.t;
  uuid_calls : nat
}.

Definition M (A : Type) : Type := State → outcome A * State.

#[global] Instance M_ret : MRet M := λ A a s, (Return a, s).
#[global] Instance M_bind : MBind M := λ A B f m s,
  match m s with
  | (Return a, s') => f a s'
  | (Raise e, s') => (Raise e, s')
  end.
Definition ret {A} (a : A) : M A := mret a.
Definition raise {A} (e : exn) : M A := λ s, (Raise e, s).
Definition gets {A} (f : State → A) : M A := λ s, (Return (f s), s).
Definition modify (f : State → State) : M unit := λ s, (Return tt, f s).

Definition set_users_db (f : dict UserResponse.t → dict UserResponse.t)
    (s : State) : State :=
  mkState (f (users_db s)) (tasks_db s) (uuid_calls s).
Definition set_tasks_db (f : dict TaskResponse.t → dict TaskResponse.t)
    (s : State) : State :=
  mkState (users_db s) (f (tasks_db s)) (uuid_calls s).

(** [users_db[k]] and [tasks_db[k]] as expressions. *)
Definition users_getitem (k : string) : M UserResponse.t :=
  db ← gets users_db;
  match dict_getitem k db with
  | Some v => ret v
  | None => raise (KeyError k)
  end.
Definition tasks_getitem (k : string) : M TaskResponse.t :=
  db ← gets tasks_db;
  match dict_getitem k db with
  | Some v => ret v
  | None => raise (KeyError k)
  end.

(** [del users_db[k]] and [del tasks_db[k]]. *)
Definition users_delitem (k : string) : M unit :=
  db ← gets users_db;
  match dict_delitem k db with
  | Some db' => modify (set_users_db (λ _, db'))
  | None => raise (KeyError k)
  end.
Definition tasks_delitem (k : string) : M unit :=
  db ← gets tasks_db;
  match dict_delitem k db with
  | Some db' => modify (set_tasks_db (λ _, db'))
  | None => raise (KeyError k)
  end.

(** [for x in xs: body(x)] *)
Fixpoint for_each {A} (xs : list A) (body : A → M unit) : M unit :=
  match xs with
  | [] => ret tt
  | x :: xs' => body x ;; for_each xs' body
  end.

(** Truthiness of an [Optional[str]]: [None] and the empty string are
    false. *)
Definition truthy (o : option string) : bool :=
  match o with
  | None => false
  | Some u => bool_decide (u ≠ "")
  end.

Section endpoints.
(** [uuid4 n] is the text of the [n]-th identifier that
    [str(uuid.uuid4())] hands out in the life of the process.  The
    values come from the operating system's random source, so the
    store takes them as given. *)
Variable uuid4 : nat → string.

Definition new_uuid : M string :=
  λ s, (Return (uuid4 (uuid_calls s)),
        mkState (users_db s) (tasks_db s) (S (uuid_calls s))).

(** POST /users *)
Definition create_user (user : User.t) : M UserResponse.t :=
  user_id ← new_uuid;
  let user_data :=
    UserResponse.mk user_id (User.name user) (User.email user)
      (User.age user) in
  modify (set_users_db (dict_setitem user_id user_data)) ;;
  ret user_data.

(** GET /users *)
Definition get_users : M (list UserResponse.t) :=
  gets (λ s, dict_values (users_db s)).

(** GET /users/{user_id} *)
Definition get_user (user_id : string) : M UserResponse.t :=
  present ← gets (λ s, dict_contains user_id (users_db s));
  if negb present then raise (HTTPException 404 "User not found")
  else users_getitem user_id.

(** PUT /users/{user_id} *)
Definition update_user (user_id : string) (user : User.t)
    : M UserResponse.t :=
  present ← gets (λ s, dict_contains user_id (users_db s));
  if negb present then raise (HTTPException 404 "User not found")
  else
    let user_data :=
      UserResponse.mk user_id (User.name user) (User.email user)
        (User.age user) in
    modify (set_users_db (dict_setitem user_id user_data)) ;;
    ret user_data.

(** DELETE /users/{user_id} *)
Definition delete_user (user_id : string) : M string :=
  present ← gets (λ s, dict_contains user_id (users_db s));
  if negb present then raise (HTTPException 404 "User not found")
  else
    user_tasks ← gets (λ s,
      (filter (λ it, TaskResponse.user_id it.2 = Some user_id)
              (dict_items (tasks_db s))).*1);
    for_each user_tasks tasks_delitem ;;
    users_delitem user_id ;;
    ret "User deleted successfully".

(** POST /tasks *)
Definition create_task (task : Task.t) : M TaskResponse.t :=
  known ← gets (λ s,
    match Task.user_id task with
    | Some u => dict_contains u (users_db s)
    | None => false
    end);
  if truthy (Task.user_id task) && negb known
  then raise (HTTPException 400 "User not found")
  else
    task_id ← new_uuid;
    let task_data :=
      TaskResponse.mk task_id (Task.title task) (Task.description task)
        (Task.completed task) (Task.user_id task) in
    modify (set_tasks_db (dict_setitem task_id task_data)) ;;
    ret task_data.

(** GET /tasks *)
Definition get_tasks (completed : option bool) (user_id : option string)
    : M (list TaskResponse.t) :=
  tasks ← gets (λ s, dict_values (tasks_db s));
  let tasks :=
    match completed with
    | Some c => filter (λ task, TaskResponse.completed task = c) tasks
    | None => tasks
    end in
  let tasks :=
    match user_id with
    | Some u => filter (λ task, TaskResponse.user_id task = Some u) tasks
    | None => tasks
    end in
  ret tasks.

(** GET /tasks/{task_id} *)
Definition get_task (task_id : string) : M TaskResponse.t :=
  present ← gets (λ s, dict_contains task_id (tasks_db s));
  if negb present then raise (HTTPException 404 "Task not found")
  else tasks_getitem task_id.

(** PUT /tasks/{task_id} *)
Definition update_task (task_id : string) (task : Task.t)
    : M TaskResponse.t :=
  present ← gets (λ s, dict_contains task_id (tasks_db s));
  if negb present then raise (HTTPException 404 "Task not found")
  else
    known ← gets (λ s,
      match Task.user_id task with
      | Some u => dict_contains u (users_db s)
      | None => false
      end);
    if truthy (Task.user_id task) && negb known
    then raise (HTTPException 400 "User not found")
    else
      let task_data :=
        TaskResponse.mk task_id (Task.title task) (Task.description task)
          (Task.completed task) (Task.user_id task) in
      modify (set_tasks_db (dict_setitem task_id task_data)) ;;
      ret task_data.

(** PATCH /tasks/{task_id}/complete *)
Definition complete_task (task_id : string) : M TaskResponse.t :=
  present ← gets (λ s, dict_contains task_id (tasks_db s));
  if negb present then raise (HTTPException 404 "Task not found")
  else
    task ← tasks_getitem task_id;
    modify (set_tasks_db (dict_setitem task_id
      (TaskResponse.mk (TaskResponse.id task) (TaskResponse.title task)
         (TaskResponse.description task) true
         (TaskResponse.user_id task)))) ;;
    tasks_getitem task_id.

(** DELETE /tasks/{task_id} *)
Definition delete_task (task_id : string) : M string :=
  present ← gets (λ s, dict_contains task_id (tasks_db s));
  if negb present then raise (HTTPException 404 "Task not found")
  else
    tasks_delitem task_id ;;
    ret "Task deleted successfully".

(** [reset_database()] *)
Definition reset_database : M unit :=
  modify (set_users_db (λ _, [])) ;;
  modify (set_tasks_db (λ _, [])).

(** [get_database_stats()] *)
Record Stats : Type := mkStats {
  users_count : nat;
  tasks_count : nat;
  completed_tasks : nat
}.

Definition get_database_stats : M Stats :=
  gets (λ s,
    mkStats (length (users_db s)) (length (tasks_db s))
      (length (filter (λ t, TaskResponse.completed t = true)
                 (dict_values (tasks_db s))))).

(** GET / and GET /health: constant bodies. *)
Definition read_root : M (list (string * string)) :=
  ret [("message", "Welcome to Demo API")].

Definition health_check : M (list (string * string)) :=
  ret [("status", "healthy"); ("version", "1.0.0")].

End endpoints.

(** The state of a freshly imported module. *)
Definition init : State := mkState [] [] 0.

End api.

(** ** The task summary of the command-line client (src/cli.py) *)

Module cli.

Module User.
Record t : Type := mk {
  id : string; name : string; email : string; age : option Z
}.
End User.

Module Task.
Record t : Type := mk {
  id : string;
  title : string;
  description : option string;
  completed : bool;
  user_id : option string
}.
End Task.

(** A remote call either yields the decoded body or raises one of the
    exceptions of [requests]. *)
Inductive response (A : Type) : Type :=
  | Ok (a : A)
  | RequestException (msg : string).
Arguments Ok {A} a.
Arguments RequestException {A} msg.

(** The two methods of [APIClient] that the summary uses.  What the
    server answers is outside this module, so the client is an
    interface, as it is for the mocks of the test suite. *)
Record APIClient : Type := {
  get_user : string → response User.t;
  get_tasks : option bool → option string → response (list Task.t)
}.

(** Python numbers, as far as the summary produces them: an [int], or
    a [float], which is an IEEE 754 binary64 value. *)
Inductive number : Type :=
  | PyInt (n : Z)
  | PyFloat (x : spec_float).

(** [float(n)]: the binary64 value nearest to the integer [n]. *)
Definition float_of_int (n : Z) : spec_float :=
  binary_normalize 53 1024 n 0 false.

(** [a / b] on two [int]s with [b] non-zero: true division.  CPython
    computes it as the binary64 quotient of the two operands converted
    to [float] whenever both convert exactly, that is below 2^53 in
    absolute value, as every [len()] is. *)
Definition true_divide (a b : Z) : spec_float :=
  SFdiv 53 1024 (float_of_int a) (float_of_int b).

(** The floats [0.0] and [1.0]. *)
Definition float_zero : spec_float := S754_zero false.
Definition float_one : spec_float := S754_finite false 4503599627370496 (-52).

(** [located l num den]: the rounding location [l] says where the
    fraction [num / den] of the interval from 0 to 1 lies with respect
    to one half.  It is what the division hands to the rounding. *)
Definition located (l : location) (num den : Z) : Prop :=
  match l with
  | loc_Exact => num = 0
  | loc_Inexact c => 0 < num /\ (2 * num ?= den) = c
  end.

(** The dictionary returned by [get_user_task_summary]. *)
Record Summary : Type := mkSummary {
  user : User.t;
  total_tasks : nat;
  completed_tasks : nat;
  pending_tasks : nat;
  completion_rate : number
}.

Definition get_user_task_summary (api : APIClient) (user_id : string)
    : response Summary :=
  match get_user api user_id with
  | RequestException e => RequestException e
  | Ok user =>
      match get_tasks api None (Some user_id) with
      | RequestException e => RequestException e
      | Ok tasks =>
          let completed_tasks :=
            filter (λ t, Task.completed t = true) tasks in
          let pending_tasks :=
            filter (λ t, Task.completed t ≠ true) tasks in
          Ok (mkSummary user (length tasks) (length completed_tasks)
                (length pending_tasks)
                (match tasks with
                 | _ :: _ =>
                     PyFloat
                       (true_divide (Z.of_nat (length completed_tasks))
                          (Z.of_nat (length tasks)))
                 | [] => PyInt 0
                 end))
      end
  end.


(** The client of the test suite: a fixed user, and four tasks of
    which the first and the third are completed. *)
Definition sample_tasks (flags : list bool) : list Task.t :=
  imap (λ i c, Task.mk ("task-" +:+ pretty (S i)) "" None c None) flags.

Definition sample_client : APIClient :=
  {| get_user := λ i, Ok (User.mk i "John Doe" "john@example.com" None);
     get_tasks := λ _ _, Ok (sample_tasks [true; false; true; false]) |}.

(** *** Text handling of the client

    The functions below look inside their strings, so a Python [str] is
    taken as what it is: the sequence of its code points. *)
Abbreviation text := (list N).

(** The text of a literal. *)
Definition str (s : string) : text :=
  Ascii.N_of_ascii <$> String.list_ascii_of_string s.

(** [c.isspace()]: the code points Python counts as whitespace. *)
Definition isspace (c : N) : bool :=
  ((9 <=? c) && (c <=? 13) || (28 <=? c) && (c <=? 32)
   || (c =? 133) || (c =? 160) || (c =? 5760)
   || (8192 <=? c) && (c <=? 8202)
   || (c =? 8232) || (c =? 8233) || (c =? 8239) || (c =? 8287)
   || (c =? 12288))%N.

(** [s.lstrip(chars)] and [s.rstrip(chars)], the set [chars] given as a
    predicate. *)
Fixpoint lstrip_by (p : N → bool) (s : text) : text :=
  match s with
  | c :: s' => if p c then lstrip_by p s' else s
  | [] => []
  end.

Definition rstrip_by (p : N → bool) (s : text) : text :=
  reverse (lstrip_by p (reverse s)).

(** [s.strip()] *)
Definition strip (s : text) : text := rstrip_by isspace (lstrip_by isspace s).

(** [APIClient.__init__]: the value kept in [self.base_url], which is
    [base_url.rstrip("/")]. *)
Definition init_base_url (base_url : text) : text :=
  rstrip_by (λ c, c =? 47)%N base_url.

(** Regular expressions, as far as the email pattern needs them. *)
Inductive regex : Type :=
  | Never
  | Epsilon
  | Class (p : N → bool)
  | Cat (r1 r2 : regex)
  | Alt (r1 r2 : regex)
  | Star (r : regex).

(** [r+] and [r{2,}] *)
Definition Plus (r : regex) : regex := Cat r (Star r).
Definition TwoOrMore (r : regex) : regex := Cat r (Cat r (Star r)).

(** [$] without [re.MULTILINE]: the end of the string, or the position
    just before a newline that ends the string. *)
Definition Dollar : regex := Alt Epsilon (Class (λ c, c =? 10)%N).

Fixpoint nullable (r : regex) : bool :=
  match r with
  | Never => false
  | Epsilon => true
  | Class _ => false
  | Cat r1 r2 => nullable r1 && nullable r2
  | Alt r1 r2 => nullable r1 || nullable r2
  | Star _ => true
  end.

(** What is left of [r] to match once [c] has been read. *)
Fixpoint deriv (c : N) (r : regex) : regex :=
  match r with
  | Never => Never
  | Epsilon => Never
  | Class p => if p c then Epsilon else Never
  | Cat r1 r2 =>
      if nullable r1 then Alt (Cat (deriv c r1) r2) (deriv c r2)
      else Cat (deriv c r1) r2
  | Alt r1 r2 => Alt (deriv c r1) (deriv c r2)
  | Star r' => Cat (deriv c r') (Star r')
  end.

(** Whether the pattern matches the whole of [s].  With [re.match] and
    a pattern that ends in [$], this is whether there is a match. *)
Fixpoint fullmatch (r : regex) (s : text) : bool :=
  match s with
  | [] => nullable r
  | c :: s' => fullmatch (deriv c r) s'
  end.

(** The character classes of the email pattern. *)
Definition lower (c : N) : bool := ((97 <=? c) && (c <=? 122))%N.
Definition upper (c : N) : bool := ((65 <=? c) && (c <=? 90))%N.
Definition digit (c : N) : bool := ((48 <=? c) && (c <=? 57))%N.
Definition letter (c : N) : bool := lower c || upper c.

(** [[a-zA-Z0-9._%+-]] *)
Definition local_char (c : N) : bool :=
  (letter c || digit c
   || (c =? 46) || (c =? 95) || (c =? 37) || (c =? 43) || (c =? 45))%N.

(** [[a-zA-Z0-9.-]] *)
Definition domain_char (c : N) : bool :=
  (letter c || digit c || (c =? 46) || (c =? 45))%N.

(** The pattern of [validate_email]; the leading [^] adds nothing under
    [re.match]. *)
Definition email_pattern : regex :=
  Cat (Plus (Class local_char))
    (Cat (Class (λ c, c =? 64)%N)
       (Cat (Plus (Class domain_char))
          (Cat (Class (λ c, c =? 46)%N)
             (Cat (TwoOrMore (Class letter)) Dollar)))).

(** [TaskManager.validate_email] *)
Definition validate_email (email : text) : bool :=
  fullmatch email_pattern email.

(** [TaskManager.validate_age] *)
Definition validate_age (age : Z) : bool := (0 <=? age) && (age <=? 150).

(** What [create_user_with_validation] does: it raises [ValueError], or
    it makes the remote call and passes its outcome on. *)
Inductive validated (A : Type) : Type :=
  | Called (r : response A)
  | ValueError (msg : string).
Arguments Called {A} r.
Arguments ValueError {A} msg.

(** [TaskManager.create_user_with_validation]; [api_create_user] is the
    method [create_user] of the client. *)
Definition create_user_with_validation
    (api_create_user : text → text → option Z → response User.t)
    (name email : text) (age : option Z) : validated User.t :=
  if bool_decide (strip name = []) then ValueError "Name cannot be empty"
  else if negb (validate_email email) then ValueError "Invalid email format"
  else if match age with
          | Some a => negb (validate_age a)
          | None => false
          end
  then ValueError "Age must be between 0 and 150"
  else Called (api_create_user (strip name) email age).

(** The parts of an accepted email: local part, domain, top-level
    domain, and what may follow them. *)
Definition email_shape (local domain tld nl : text) : Prop :=
  local ≠ [] ∧ Forall (λ c, local_char c = true) local ∧
  domain ≠ [] ∧ Forall (λ c, domain_char c = true) domain ∧
  (2 ≤ length tld)%nat ∧ Forall (λ c, letter c = true) tld ∧
  (nl = [] ∨ nl = [10%N]).

(** The language of a pattern: the texts it matches as a whole. *)
Inductive lang : regex → text → Prop :=
  | lang_epsilon : lang Epsilon []
  | lang_class p c : p c = true → lang (Class p) [c]
  | lang_cat r1 r2 s1 s2 : lang r1 s1 → lang r2 s2 → lang (Cat r1 r2) (s1 ++ s2)
  | lang_alt_l r1 r2 s : lang r1 s → lang (Alt r1 r2) s
  | lang_alt_r r1 r2 s : lang r2 s → lang (Alt r1 r2) s
  | lang_star_nil r : lang (Star r) []
  | lang_star_cons r s1 s2 :
      lang r s1 → lang (Star r) s2 → lang (Star r) (s1 ++ s2).

End cli.

(** ** Vocabulary of the properties *)

Module store.
Import api.

(** What a Python [dict] guarantees (unique keys) together with what
    the endpoints maintain: every stored record carries its own key in
    its [id] field. *)
Definition keyed_users (d : dict UserResponse.t) : Prop :=
  Forall (λ it, UserResponse.id it.2 = it.1) d.
Definition keyed_tasks (d : dict TaskResponse.t) : Prop :=
  Forall (λ it, TaskResponse.id it.2 = it.1) d.

Definition wf (s : State) : Prop :=
  dict_wf (users_db s) ∧ dict_wf (tasks_db s) ∧
  keyed_users (users_db s) ∧ keyed_tasks (tasks_db s).

#[global] Instance wf_dec s : Decision (wf s).
Proof. unfold wf, dict_wf, keyed_users, keyed_tasks. apply _. Defined.

(** Referential integrity as the design document words it: every task
    with a non-null [user_id] names a stored user. *)
Definition referential_integrity (s : State) : Prop :=
  ∀ task u,
    task ∈ dict_values (tasks_db s) →
    TaskResponse.user_id task = Some u →
    u ∈ dict_keys (users_db s).

(** Referential integrity as the endpoints enforce it: the empty
    string counts as no owner. *)
Definition referential_integrity_truthy (s : State) : Prop :=
  ∀ task u,
    task ∈ dict_values (tasks_db s) →
    TaskResponse.user_id task = Some u →
    u ≠ "" →
    u ∈ dict_keys (users_db s).

(** The condition under which [create_task] and [update_task] refuse
    an owner: a non-empty [user_id] that is not a key of [users_db]. *)
Definition dangling (o : option string) (s : State) : Prop :=
  ∃ u, o = Some u ∧ u ≠ "" ∧ u ∉ dict_keys (users_db s).

(** The record that [create_user] and [update_user] store under [k]. *)
Definition user_data (k : string) (user : User.t) : UserResponse.t :=
  UserResponse.mk k (User.name user) (User.email user) (User.age user).

(** The record that [create_task] and [update_task] store under [k]. *)
Definition task_data (k : string) (task : Task.t) : TaskResponse.t :=
  TaskResponse.mk k (Task.title task) (Task.description task)
    (Task.completed task) (Task.user_id task).

(** The mutating requests a client can send. *)
Inductive request : Type :=
  | CreateUser (user : User.t)
  | UpdateUser (user_id : string) (user : User.t)
  | DeleteUser (user_id : string)
  | CreateTask (task : Task.t)
  | UpdateTask (task_id : string) (task : Task.t)
  | CompleteTask (task_id : string)
  | DeleteTask (task_id : string)
  | ResetDatabase.

Section runs.
Variable uuid4 : nat → string.

(** The state a request leaves behind, whether it returns or raises. *)
Definition exec (r : request) (s : State) : State :=
  match r with
  | CreateUser user => (create_user uuid4 user s).2
  | UpdateUser user_id user => (update_user user_id user s).2
  | DeleteUser user_id => (delete_user user_id s).2
  | CreateTask task => (create_task uuid4 task s).2
  | UpdateTask task_id task => (update_task task_id task s).2
  | CompleteTask task_id => (complete_task task_id s).2
  | DeleteTask task_id => (delete_task task_id s).2
  | ResetDatabase => (reset_database s).2
  end.

Definition run (rs : list request) (s : State) : State :=
  foldl (λ s r, exec r s) s rs.

Definition reachable (s : State) : Prop := ∃ rs, s = run rs init.

(** A sequence of create calls.  For every call that returns, the
    trace records the identifier handed back and the keys that were
    live in the target collection just before the call. *)
Inductive create_call : Type :=
  | NewUser (user : User.t)
  | NewTask (task : Task.t).

Fixpoint run_creates (calls : list create_call) (s : State)
    : list (string * list string) * State :=
  match calls with
  | [] => ([], s)
  | NewUser user :: calls' =>
      match create_user uuid4 user s with
      | (Return r, s') =>
          let (trace, s'') := run_creates calls' s' in
          ((UserResponse.id r, dict_keys (users_db s)) :: trace, s'')
      | (Raise _, s') => run_creates calls' s'
      end
  | NewTask task :: calls' =>
      match create_task uuid4 task s with
      | (Return r, s') =>
          let (trace, s'') := run_creates calls' s' in
          ((TaskResponse.id r, dict_keys (tasks_db s)) :: trace, s'')
      | (Raise _, s') => run_creates calls' s'
      end
  end.

End runs.

(** [t] with its [completed] field set. *)
Definition mark_completed (t : TaskResponse.t) : TaskResponse.t :=
  TaskResponse.mk (TaskResponse.id t) (TaskResponse.title t)
    (TaskResponse.description t) true (TaskResponse.user_id t).


(** Concrete data on which the properties below are exercised. *)
Module sample.
Definition uuid4 (n : nat) : string := "uuid-" +:+ pretty n.

Definition alice : User.t := User.mk "Alice" "alice@example.com" (Some 30).
Definition bob : User.t := User.mk "Bob" "bob@example.com" None.

Definition report : Task.t :=
  Task.mk "Write report" (Some "quarterly") false (Some "uuid-0").
Definition review : Task.t :=
  Task.mk "Review" None true (Some "uuid-0").
Definition errand : Task.t := Task.mk "Errand" None false None.
Definition orphan : Task.t := Task.mk "Orphan" None false (Some "").
Definition stray : Task.t := Task.mk "Stray" None false (Some "missing").

(** Alice (uuid-0) with three tasks (uuid-1 to uuid-3), two of them
    hers. *)
Definition state : State :=
  run uuid4
    [CreateUser alice; CreateTask report; CreateTask review;
     CreateTask errand] init.
End sample.

End store.

(** ** Facts about dictionaries *)

Section dict_facts.
Context {V : Type}.
Implicit Types (d : dict V) (k : string) (v : V).

Lemma dict_contains_true k d : dict_contains k d = true ↔ k ∈ dict_keys d.
Proof. unfold dict_contains. by rewrite bool_decide_eq_true. Qed.

Lemma dict_contains_false k d : dict_contains k d = false ↔ k ∉ dict_keys d.
Proof. unfold dict_contains. by rewrite bool_decide_eq_false. Qed.

Lemma dict_keys_cons k v d : dict_keys ((k, v) :: d) = k :: dict_keys d.
Proof. reflexivity. Qed.

Lemma dict_item_key k v d : (k, v) ∈ d → k ∈ dict_keys d.
Proof. intros Hin. apply list_elem_of_fmap. by exists (k, v). Qed.

Lemma dict_item_value k v d : (k, v) ∈ d → v ∈ dict_values d.
Proof. intros Hin. apply list_elem_of_fmap. by exists (k, v). Qed.

Lemma dict_getitem_item k v d : dict_getitem k d = Some v → (k, v) ∈ d.
Proof.
  induction d as [|[k' v'] d IH]; simpl; [done|].
  case_decide as Hk.
  - intros [= ->]. subst. left.
  - intros Hget. right. auto.
Qed.

Lemma dict_getitem_None k d : dict_getitem k d = None ↔ k ∉ dict_keys d.
Proof.
  induction d as [|[k' v'] d IH]; simpl.
  - split; [intros _; apply not_elem_of_nil | done].
  - rewrite dict_keys_cons, not_elem_of_cons. case_decide as Hk.
    + split; [done | intros [Hne _]; congruence].
    + rewrite IH. split; [intros ?; split; congruence | tauto].
Qed.

Lemma dict_getitem_is_Some k d : is_Some (dict_getitem k d) ↔ k ∈ dict_keys d.
Proof.
  rewrite <- not_eq_None_Some, dict_getitem_None.
  split; [apply dec_stable | auto].
Qed.

(** With unique keys, an item is found under its key. *)
Lemma dict_item_getitem k v d :
  dict_wf d → (k, v) ∈ d → dict_getitem k d = Some v.
Proof.
  unfold dict_wf. induction d as [|[k' v'] d IH]; simpl.
  - intros _ Hin. by apply elem_of_nil in Hin.
  - rewrite dict_keys_cons, NoDup_cons. intros [Hk' Hd] Hin.
    apply elem_of_cons in Hin as [[= -> ->] | Hin].
    + by rewrite decide_True.
    + rewrite decide_False; [auto|].
      intros ->. apply Hk'. by eapply dict_item_key.
Qed.

(** *** Assignment *)

Lemma dict_getitem_setitem_eq k v d : dict_getitem k (dict_setitem k v d) = Some v.
Proof.
  induction d as [|[k' v'] d IH]; simpl.
  - by rewrite decide_True.
  - case_decide as Hk; simpl.
    + by rewrite decide_True.
    + by rewrite decide_False.
Qed.

Lemma dict_getitem_setitem_ne k k' v d :
  k' ≠ k → dict_getitem k' (dict_setitem k v d) = dict_getitem k' d.
Proof.
  intros Hne. induction d as [|[k0 v0] d IH]; simpl.
  - by rewrite decide_False.
  - case_decide as Hk; simpl.
    + subst. by rewrite !decide_False.
    + case_decide; [done | apply IH].
Qed.

Lemma dict_keys_setitem_old k v d :
  k ∈ dict_keys d → dict_keys (dict_setitem k v d) = dict_keys d.
Proof.
  induction d as [|[k' v'] d IH]; simpl.
  - intros Hin. by apply elem_of_nil in Hin.
  - rewrite dict_keys_cons. intros Hin. case_decide as Hk.
    + by subst.
    + rewrite dict_keys_cons. f_equal. apply IH.
      apply elem_of_cons in Hin as [->|]; [done | auto].
Qed.

Lemma dict_setitem_new k v d :
  k ∉ dict_keys d → dict_setitem k v d = d ++ [(k, v)].
Proof.
  induction d as [|[k' v'] d IH]; simpl; [done|].
  rewrite dict_keys_cons, not_elem_of_cons. intros [Hne Hnin].
  rewrite decide_False by done. by rewrite IH.
Qed.

Lemma dict_keys_setitem k k' v d :
  k' ∈ dict_keys (dict_setitem k v d) ↔ k' = k ∨ k' ∈ dict_keys d.
Proof.
  destruct (decide (k ∈ dict_keys d)) as [Hin | Hnin].
  - rewrite dict_keys_setitem_old by done. split; [auto|].
    intros [-> | ?]; done.
  - rewrite dict_setitem_new by done. unfold dict_keys.
    rewrite fmap_app, elem_of_app. simpl.
    rewrite list_elem_of_singleton. tauto.
Qed.

Lemma dict_items_setitem k k' v v' d :
  (k', v') ∈ dict_setitem k v d → (k', v') = (k, v) ∨ (k', v') ∈ d.
Proof.
  induction d as [|[k0 v0] d IH]; simpl.
  - rewrite list_elem_of_singleton. auto.
  - case_decide as Hk; rewrite !elem_of_cons.
    + tauto.
    + intros [Heq | Hin]; [auto|]. destruct (IH Hin); auto.
Qed.

Lemma dict_wf_setitem k v d : dict_wf d → dict_wf (dict_setitem k v d).
Proof.
  unfold dict_wf. intros Hd.
  destruct (decide (k ∈ dict_keys d)) as [Hin | Hnin].
  - by rewrite dict_keys_setitem_old.
  - rewrite dict_setitem_new by done. unfold dict_keys in *.
    rewrite fmap_app. simpl. apply NoDup_app. split; [done|].
    split; [|apply NoDup_singleton].
    intros x Hx ->%list_elem_of_singleton. done.
Qed.

Lemma dict_setitem_idem k v d :
  dict_setitem k v (dict_setitem k v d) = dict_setitem k v d.
Proof.
  induction d as [|[k' v'] d IH]; simpl.
  - by rewrite decide_True.
  - case_decide as Hk; simpl.
    + by rewrite decide_True.
    + rewrite decide_False by done. by rewrite IH.
Qed.

(** *** Deletion *)

Lemma dict_delitem_is_Some k d : is_Some (dict_delitem k d) ↔ k ∈ dict_keys d.
Proof.
  induction d as [|[k' v'] d IH]; simpl.
  - split; [by intros [? [=]] | intros Hin; by apply elem_of_nil in Hin].
  - rewrite dict_keys_cons, elem_of_cons. case_decide as Hk.
    + split; [auto | by eexists].
    + rewrite fmap_is_Some, IH. split; [auto | intros [->|]; done].
Qed.

Lemma dict_delitem_sublist k d d' : dict_delitem k d = Some d' → d' `sublist_of` d.
Proof.
  revert d'. induction d as [|[k' v'] d IH]; simpl; [done|].
  intros d'. case_decide as Hk.
  - intros [= <-]. by apply sublist_cons.
  - destruct (dict_delitem k d) as [d0|]; simpl; [|done].
    intros [= <-]. apply sublist_skip. by apply IH.
Qed.

Lemma dict_delitem_keys_sublist k d d' :
  dict_delitem k d = Some d' → dict_keys d' `sublist_of` dict_keys d.
Proof. intros Hdel. apply fmap_sublist. by eapply dict_delitem_sublist. Qed.

Lemma dict_wf_delitem k d d' : dict_wf d → dict_delitem k d = Some d' → dict_wf d'.
Proof.
  unfold dict_wf. intros Hd Hdel.
  eapply sublist_NoDup; [done | by eapply dict_delitem_keys_sublist].
Qed.

Lemma dict_delitem_gone k d d' :
  dict_wf d → dict_delitem k d = Some d' → k ∉ dict_keys d'.
Proof.
  unfold dict_wf. revert d'. induction d as [|[k' v'] d IH]; simpl; [done|].
  intros d'. rewrite dict_keys_cons, NoDup_cons. intros [Hk' Hd].
  case_decide as Hk.
  - intros [= <-]. by subst.
  - destruct (dict_delitem k d) as [d0|] eqn:Hdel; simpl; [|done].
    intros [= <-]. rewrite dict_keys_cons, not_elem_of_cons.
    split; [congruence | by apply IH].
Qed.

Lemma dict_delitem_skip k k' v' d :
  k' ≠ k → dict_delitem k ((k', v') :: d) = cons (k', v') <$> dict_delitem k d.
Proof. intros Hne. simpl. by rewrite decide_False. Qed.
End dict_facts.

(** Two filters that agree on the elements of a list select the same
    sublist. *)
Lemma filter_ext_elem {A} (P Q : A → Prop)
    `{!∀ x, Decision (P x), !∀ x, Decision (Q x)} (l : list A) :
  (∀ x, x ∈ l → (P x ↔ Q x)) → filter P l = filter Q l.
Proof.
  induction l as [|x l IH]; intros Hext; [done|].
  rewrite !filter_cons.
  assert (P x ↔ Q x) as Hx by (apply Hext; left).
  rewrite IH by (intros y Hy; apply Hext; by right).
  destruct (decide (P x)), (decide (Q x)); tauto || done.
Qed.

(** ** Equations of the endpoints *)

Section endpoint_facts.
Import api store.
Implicit Types (s : State) (us : dict UserResponse.t) (ts : dict TaskResponse.t).

Lemma bind_unfold {A B} (m : M A) (f : A → M B) s :
  (m ≫= f) s =
  match m s with
  | (Return a, s') => f a s'
  | (Raise e, s') => (Raise e, s')
  end.
Proof. reflexivity. Qed.

(** Run the monadic plumbing of an endpoint applied to a state. *)
Ltac mrun :=
  cbv [mbind M_bind mret M_ret ret gets modify raise new_uuid
       set_users_db set_tasks_db]; simpl.

Lemma tasks_delitem_Some k us ts ts' n :
  dict_delitem k ts = Some ts' →
  tasks_delitem k (mkState us ts n) = (Return tt, mkState us ts' n).
Proof. intros Hdel. unfold tasks_delitem. mrun. by rewrite Hdel. Qed.

Lemma users_delitem_Some k us us' ts n :
  dict_delitem k us = Some us' →
  users_delitem k (mkState us ts n) = (Return tt, mkState us' ts n).
Proof. intros Hdel. unfold users_delitem. mrun. by rewrite Hdel. Qed.

(** An item whose key is not among those deleted stays where it is. *)
Lemma for_each_delitem_skip ks k v us ts ts' n :
  k ∉ ks →
  for_each ks tasks_delitem (mkState us ts n) = (Return tt, mkState us ts' n) →
  for_each ks tasks_delitem (mkState us ((k, v) :: ts) n)
  = (Return tt, mkState us ((k, v) :: ts') n).
Proof.
  revert ts. induction ks as [|k1 ks IH]; intros ts Hk; simpl.
  - by intros [= ->].
  - apply not_elem_of_cons in Hk as [Hne Hk].
    rewrite !bind_unfold. unfold tasks_delitem at 1 3. mrun.
    rewrite decide_False by done.
    destruct (dict_delitem k1 ts) as [ts1|]; simpl; [|done].
    by apply IH.
Qed.

(** The loop of [delete_user]: deleting, one by one, the keys of the
    items selected beforehand leaves exactly the items not selected. *)
Lemma for_each_delitem_filter (P : string * TaskResponse.t → Prop)
    `{!∀ it, Decision (P it)} us ts n :
  dict_wf ts →
  for_each (filter P ts).*1 tasks_delitem (mkState us ts n)
  = (Return tt, mkState us (filter (λ it, ¬ P it) ts) n).
Proof.
  unfold dict_wf. induction ts as [|[k v] ts IH]; [done|].
  rewrite dict_keys_cons, NoDup_cons. intros [Hk Hts].
  rewrite !filter_cons. destruct (decide (P (k, v))) as [HP | HP].
  - rewrite decide_False by auto. simpl. rewrite bind_unfold.
    unfold tasks_delitem at 1. mrun. rewrite decide_True by done.
    by apply IH.
  - rewrite decide_True by done. apply for_each_delitem_skip; [|by apply IH].
    intros Hin. apply Hk. revert Hin. unfold dict_keys.
    rewrite !list_elem_of_fmap. intros (it & -> & Hit).
    apply list_elem_of_filter in Hit as [_ Hit]. by exists it.
Qed.

Lemma delete_user_absent user_id s :
  user_id ∉ dict_keys (users_db s) →
  delete_user user_id s = (Raise (HTTPException 404 "User not found"), s).
Proof.
  intros Hnin%dict_contains_false. unfold delete_user. mrun.
  by rewrite Hnin.
Qed.

Lemma delete_user_present user_id s :
  dict_wf (tasks_db s) →
  user_id ∈ dict_keys (users_db s) →
  ∃ us', dict_delitem user_id (users_db s) = Some us' ∧
    delete_user user_id s
    = (Return "User deleted successfully",
       mkState us'
         (filter (λ it, TaskResponse.user_id it.2 ≠ Some user_id) (tasks_db s))
         (uuid_calls s)).
Proof.
  intros Hts Hin. destruct s as [us ts n]; simpl in *.
  pose proof Hin as [us' Hus']%dict_delitem_is_Some. exists us'.
  split; [done|]. apply dict_contains_true in Hin.
  unfold delete_user. mrun. rewrite Hin. simpl.
  pose proof (for_each_delitem_filter
    (λ it, TaskResponse.user_id it.2 = Some user_id) us ts n Hts) as Hloop.
  unfold dict_items. rewrite Hloop.
  rewrite (users_delitem_Some _ _ us') by done. done.
Qed.

Lemma get_user_absent user_id s :
  user_id ∉ dict_keys (users_db s) →
  get_user user_id s = (Raise (HTTPException 404 "User not found"), s).
Proof.
  intros Hnin%dict_contains_false. unfold get_user. mrun. by rewrite Hnin.
Qed.

Lemma get_user_present user_id v s :
  dict_getitem user_id (users_db s) = Some v →
  get_user user_id s = (Return v, s).
Proof.
  intros Hget. assert (dict_contains user_id (users_db s) = true) as Hin.
  { apply dict_contains_true, dict_getitem_is_Some. by eexists. }
  unfold get_user, users_getitem. mrun. rewrite Hin. simpl. by rewrite Hget.
Qed.

Lemma get_task_absent task_id s :
  task_id ∉ dict_keys (tasks_db s) →
  get_task task_id s = (Raise (HTTPException 404 "Task not found"), s).
Proof.
  intros Hnin%dict_contains_false. unfold get_task. mrun. by rewrite Hnin.
Qed.

Lemma get_task_present task_id v s :
  dict_getitem task_id (tasks_db s) = Some v →
  get_task task_id s = (Return v, s).
Proof.
  intros Hget. assert (dict_contains task_id (tasks_db s) = true) as Hin.
  { apply dict_contains_true, dict_getitem_is_Some. by eexists. }
  unfold get_task, tasks_getitem. mrun. rewrite Hin. simpl. by rewrite Hget.
Qed.

Lemma create_user_eq uuid4 user s :
  create_user uuid4 user s
  = (Return (user_data (uuid4 (uuid_calls s)) user),
     mkState
       (dict_setitem (uuid4 (uuid_calls s))
          (user_data (uuid4 (uuid_calls s)) user) (users_db s))
       (tasks_db s) (S (uuid_calls s))).
Proof. reflexivity. Qed.

Lemma update_user_absent user_id user s :
  user_id ∉ dict_keys (users_db s) →
  update_user user_id user s
  = (Raise (HTTPException 404 "User not found"), s).
Proof.
  intros Hnin%dict_contains_false. unfold update_user. mrun.
  by rewrite Hnin.
Qed.

Lemma update_user_present user_id user s :
  user_id ∈ dict_keys (users_db s) →
  update_user user_id user s
  = (Return (user_data user_id user),
     mkState (dict_setitem user_id (user_data user_id user) (users_db s))
       (tasks_db s) (uuid_calls s)).
Proof.
  intros Hin%dict_contains_true. unfold update_user. mrun. by rewrite Hin.
Qed.

(** The guard [task.user_id and task.user_id not in users_db]. *)
Lemma owner_guard o s :
  truthy o
  && negb (match o with
           | Some u => dict_contains u (users_db s)
           | None => false
           end) = true
  ↔ dangling o s.
Proof.
  unfold dangling. destruct o as [u|]; simpl.
  - rewrite andb_true_iff, negb_true_iff, bool_decide_eq_true,
      dict_contains_false.
    split; [intros [??]; by exists u | by intros (? & [= <-] & ? & ?)].
  - split; [done | by intros (? & [=] & _)].
Qed.

Lemma create_task_rejected uuid4 task s :
  dangling (Task.user_id task) s →
  create_task uuid4 task s = (Raise (HTTPException 400 "User not found"), s).
Proof.
  intros Hd%owner_guard. unfold create_task. mrun. by rewrite Hd.
Qed.

Lemma create_task_accepted uuid4 task s :
  ¬ dangling (Task.user_id task) s →
  create_task uuid4 task s
  = (Return (task_data (uuid4 (uuid_calls s)) task),
     mkState (users_db s)
       (dict_setitem (uuid4 (uuid_calls s))
          (task_data (uuid4 (uuid_calls s)) task) (tasks_db s))
       (S (uuid_calls s))).
Proof.
  rewrite <- owner_guard, not_true_iff_false. intros Hd.
  unfold create_task. mrun. by rewrite Hd.
Qed.

Lemma update_task_absent task_id task s :
  task_id ∉ dict_keys (tasks_db s) →
  update_task task_id task s
  = (Raise (HTTPException 404 "Task not found"), s).
Proof.
  intros Hnin%dict_contains_false. unfold update_task. mrun.
  by rewrite Hnin.
Qed.

Lemma update_task_rejected task_id task s :
  task_id ∈ dict_keys (tasks_db s) →
  dangling (Task.user_id task) s →
  update_task task_id task s
  = (Raise (HTTPException 400 "User not found"), s).
Proof.
  intros Hin%dict_contains_true Hd%owner_guard. unfold update_task. mrun.
  rewrite Hin. simpl. by rewrite Hd.
Qed.

Lemma update_task_accepted task_id task s :
  task_id ∈ dict_keys (tasks_db s) →
  ¬ dangling (Task.user_id task) s →
  update_task task_id task s
  = (Return (task_data task_id task),
     mkState (users_db s)
       (dict_setitem task_id (task_data task_id task) (tasks_db s))
       (uuid_calls s)).
Proof.
  rewrite <- owner_guard, not_true_iff_false.
  intros Hin%dict_contains_true Hd. unfold update_task. mrun.
  rewrite Hin. simpl. by rewrite Hd.
Qed.

Lemma complete_task_absent task_id s :
  task_id ∉ dict_keys (tasks_db s) →
  complete_task task_id s
  = (Raise (HTTPException 404 "Task not found"), s).
Proof.
  intros Hnin%dict_contains_false. unfold complete_task. mrun.
  by rewrite Hnin.
Qed.

Lemma complete_task_present task_id t s :
  dict_getitem task_id (tasks_db s) = Some t →
  complete_task task_id s
  = (Return (mark_completed t),
     mkState (users_db s)
       (dict_setitem task_id (mark_completed t) (tasks_db s))
       (uuid_calls s)).
Proof.
  intros Hget. assert (dict_contains task_id (tasks_db s) = true) as Hin.
  { apply dict_contains_true, dict_getitem_is_Some. by eexists. }
  unfold complete_task, tasks_getitem. mrun. rewrite Hin. simpl.
  rewrite Hget. simpl. by rewrite dict_getitem_setitem_eq.
Qed.

Lemma delete_task_absent task_id s :
  task_id ∉ dict_keys (tasks_db s) →
  delete_task task_id s = (Raise (HTTPException 404 "Task not found"), s).
Proof.
  intros Hnin%dict_contains_false. unfold delete_task. mrun.
  by rewrite Hnin.
Qed.

Lemma delete_task_present task_id s :
  task_id ∈ dict_keys (tasks_db s) →
  ∃ ts', dict_delitem task_id (tasks_db s) = Some ts' ∧
    delete_task task_id s
    = (Return "Task deleted successfully",
       mkState (users_db s) ts' (uuid_calls s)).
Proof.
  intros Hin. pose proof Hin as [ts' Hts']%dict_delitem_is_Some.
  exists ts'. split; [done|]. apply dict_contains_true in Hin.
  unfold delete_task, tasks_delitem. mrun. rewrite Hin. simpl.
  by rewrite Hts'.
Qed.

Lemma get_tasks_eq completed user_id s :
  get_tasks completed user_id s
  = (Return
       (let tasks := dict_values (tasks_db s) in
        let tasks :=
          match completed with
          | Some c => filter (λ task, TaskResponse.completed task = c) tasks
          | None => tasks
          end in
        match user_id with
        | Some u => filter (λ task, TaskResponse.user_id task = Some u) tasks
        | None => tasks
        end), s).
Proof. reflexivity. Qed.
End endpoint_facts.

(** ** Invariants of the store *)

Section invariants.
Import api store.
Implicit Types (s : State) (us : dict UserResponse.t) (ts : dict TaskResponse.t).

Lemma dict_values_elem {V} (v : V) (d : dict V) :
  v ∈ dict_values d ↔ ∃ k, (k, v) ∈ d.
Proof.
  unfold dict_values. rewrite list_elem_of_fmap. split.
  - intros ([k v'] & -> & Hin). by exists k.
  - intros [k Hin]. by exists (k, v).
Qed.

Lemma dict_delitem_other {V} k k' (d d' : dict V) :
  dict_delitem k d = Some d' → k' ≠ k → k' ∈ dict_keys d → k' ∈ dict_keys d'.
Proof.
  revert d'. induction d as [|[k0 v0] d IH]; simpl; [done|].
  intros d'. rewrite dict_keys_cons, elem_of_cons. case_decide as Hk.
  - intros [= <-] Hne [-> | Hin]; [congruence | done].
  - destruct (dict_delitem k d) as [d0|]; simpl; [|done].
    intros [= <-] Hne Hin. rewrite dict_keys_cons, elem_of_cons.
    destruct Hin as [-> | Hin]; [by left | right; by apply IH].
Qed.

Lemma dangling_dec o s : dangling o s ∨ ¬ dangling o s.
Proof.
  rewrite <- owner_guard.
  destruct (truthy o && negb _); [by left | by right].
Qed.

Lemma not_dangling_known u s :
  ¬ dangling (Some u) s → u ≠ "" → u ∈ dict_keys (users_db s).
Proof.
  intros Hnd Hne. apply dec_stable. intros Hnin. apply Hnd. by exists u.
Qed.

(** *** Well-formedness is preserved *)

Lemma wf_users s : wf s → dict_wf (users_db s).
Proof. by intros (? & _). Qed.

Lemma wf_tasks s : wf s → dict_wf (tasks_db s).
Proof. by intros (_ & ? & _). Qed.

Lemma wf_user_ids s k v :
  wf s → (k, v) ∈ users_db s → UserResponse.id v = k.
Proof.
  intros (_ & _ & Hku & _) Hin. unfold keyed_users in Hku.
  rewrite Forall_forall in Hku. exact (Hku (k, v) Hin).
Qed.

Lemma wf_task_ids s k v :
  wf s → (k, v) ∈ tasks_db s → TaskResponse.id v = k.
Proof.
  intros (_ & _ & _ & Hkt) Hin. unfold keyed_tasks in Hkt.
  rewrite Forall_forall in Hkt. exact (Hkt (k, v) Hin).
Qed.

Lemma wf_empty n : wf (mkState [] [] n).
Proof.
  repeat split; simpl; try apply NoDup_nil_2; apply Forall_nil_2.
Qed.

Lemma wf_init : wf init.
Proof. apply wf_empty. Qed.

Lemma wf_set_user k user s n :
  wf s →
  wf (mkState (dict_setitem k (user_data k user) (users_db s)) (tasks_db s) n).
Proof.
  intros (Hus & Hts & Hku & Hkt). repeat split; simpl; [|done| |done].
  - by apply dict_wf_setitem.
  - unfold keyed_users in *. rewrite Forall_forall in *.
    intros [k' v'] [[= -> ->] | Hin]%dict_items_setitem; [done | by apply Hku].
Qed.

Lemma wf_set_task k t s n :
  TaskResponse.id t = k →
  wf s →
  wf (mkState (users_db s) (dict_setitem k t (tasks_db s)) n).
Proof.
  intros Hid (Hus & Hts & Hku & Hkt). repeat split; simpl; [done| |done|].
  - by apply dict_wf_setitem.
  - unfold keyed_tasks in *. rewrite Forall_forall in *.
    intros [k' v'] [[= -> ->] | Hin]%dict_items_setitem; [done | by apply Hkt].
Qed.

Lemma wf_sub us' ts' s n :
  us' `sublist_of` users_db s →
  ts' `sublist_of` tasks_db s →
  wf s →
  wf (mkState us' ts' n).
Proof.
  intros Hsu Hst (Hus & Hts & Hku & Hkt). repeat split; simpl.
  - eapply sublist_NoDup; [exact Hus | by apply fmap_sublist].
  - eapply sublist_NoDup; [exact Hts | by apply fmap_sublist].
  - unfold keyed_users in *. rewrite Forall_forall in *.
    intros it Hin. apply Hku. by eapply elem_of_sublist.
  - unfold keyed_tasks in *. rewrite Forall_forall in *.
    intros it Hin. apply Hkt. by eapply elem_of_sublist.
Qed.

Lemma exec_wf uuid4 r s : wf s → wf (exec uuid4 r s).
Proof.
  intros Hwf. destruct r as [user|k user|k|task|k task|k|k|]; unfold exec.
  - rewrite create_user_eq. by apply wf_set_user.
  - destruct (decide (k ∈ dict_keys (users_db s))) as [Hin | Hnin].
    + rewrite update_user_present by done. by apply wf_set_user.
    + by rewrite update_user_absent.
  - destruct (decide (k ∈ dict_keys (users_db s))) as [Hin | Hnin].
    + destruct (delete_user_present k s (wf_tasks s Hwf) Hin)
        as (us' & Hdel & ->). simpl.
      apply (wf_sub _ _ s); [by eapply dict_delitem_sublist | | done].
      simpl. apply sublist_filter.
    + by rewrite delete_user_absent.
  - destruct (dangling_dec (Task.user_id task) s) as [Hd | Hd].
    + by rewrite create_task_rejected.
    + rewrite create_task_accepted by done. by apply wf_set_task.
  - destruct (decide (k ∈ dict_keys (tasks_db s))) as [Hin | Hnin];
      [|by rewrite update_task_absent].
    destruct (dangling_dec (Task.user_id task) s) as [Hd | Hd].
    + by rewrite update_task_rejected.
    + rewrite update_task_accepted by done. by apply wf_set_task.
  - destruct (dict_getitem k (tasks_db s)) as [t|] eqn:Hget.
    + rewrite (complete_task_present k t) by done. apply wf_set_task; [|done].
      simpl. apply (wf_task_ids s); [done|]. by apply dict_getitem_item.
    + apply dict_getitem_None in Hget. by rewrite complete_task_absent.
  - destruct (decide (k ∈ dict_keys (tasks_db s))) as [Hin | Hnin].
    + destruct (delete_task_present k s Hin) as (ts' & Hdel & ->). simpl.
      apply (wf_sub _ _ s); [done | by eapply dict_delitem_sublist | done].
    + by rewrite delete_task_absent.
  - apply wf_empty.
Qed.

Lemma run_wf uuid4 rs s : wf s → wf (run uuid4 rs s).
Proof.
  revert s. induction rs as [|r rs IH]; intros s Hwf; simpl; [done|].
  by apply IH, exec_wf.
Qed.

Lemma reachable_wf uuid4 s : reachable uuid4 s → wf s.
Proof. intros [rs ->]. apply run_wf, wf_init. Qed.

(** *** Referential integrity is preserved *)

Lemma integrity_set_task k t s n :
  (∀ u, TaskResponse.user_id t = Some u → u ≠ "" →
        u ∈ dict_keys (users_db s)) →
  referential_integrity_truthy s →
  referential_integrity_truthy
    (mkState (users_db s) (dict_setitem k t (tasks_db s)) n).
Proof.
  intros Ht Hs task u [k' Hin]%dict_values_elem Hu Hne. simpl in *.
  apply dict_items_setitem in Hin as [[= -> ->] | Hin]; [by apply Ht|].
  eapply Hs; [|done..]. apply dict_values_elem. by exists k'.
Qed.

Lemma exec_integrity uuid4 r s :
  wf s →
  referential_integrity_truthy s →
  referential_integrity_truthy (exec uuid4 r s).
Proof.
  intros Hwf Hs. destruct r as [user|k user|k|task|k task|k|k|]; unfold exec.
  - rewrite create_user_eq. intros task u Hin Hu Hne. simpl in *.
    apply dict_keys_setitem. right. by eapply Hs.
  - destruct (decide (k ∈ dict_keys (users_db s))) as [Hin | Hnin];
      [|by rewrite update_user_absent].
    rewrite update_user_present by done. intros task u Ht Hu Hne.
    simpl in *. rewrite dict_keys_setitem_old by done. by eapply Hs.
  - destruct (decide (k ∈ dict_keys (users_db s))) as [Hin | Hnin];
      [|by rewrite delete_user_absent].
    destruct (delete_user_present k s (wf_tasks s Hwf) Hin)
      as (us' & Hdel & ->). simpl.
    intros task u [k' Ht]%dict_values_elem Hu Hne. simpl in *.
    apply list_elem_of_filter in Ht as [Hown Ht]. simpl in Hown.
    eapply dict_delitem_other; [done|congruence|].
    eapply Hs; [|done..]. apply dict_values_elem. by exists k'.
  - destruct (dangling_dec (Task.user_id task) s) as [Hd | Hd];
      [by rewrite create_task_rejected|].
    rewrite create_task_accepted by done. apply integrity_set_task; [|done].
    simpl. intros u Hu Hne. rewrite Hu in Hd. by apply not_dangling_known.
  - destruct (decide (k ∈ dict_keys (tasks_db s))) as [Hin | Hnin];
      [|by rewrite update_task_absent].
    destruct (dangling_dec (Task.user_id task) s) as [Hd | Hd];
      [by rewrite update_task_rejected|].
    rewrite update_task_accepted by done. apply integrity_set_task; [|done].
    simpl. intros u Hu Hne. rewrite Hu in Hd. by apply not_dangling_known.
  - destruct (dict_getitem k (tasks_db s)) as [t|] eqn:Hget.
    + rewrite (complete_task_present k t) by done.
      apply integrity_set_task; [|done]. simpl. intros u Hu Hne.
      eapply Hs; [|done..]. apply dict_values_elem. exists k.
      by apply dict_getitem_item.
    + apply dict_getitem_None in Hget. by rewrite complete_task_absent.
  - destruct (decide (k ∈ dict_keys (tasks_db s))) as [Hin | Hnin];
      [|by rewrite delete_task_absent].
    destruct (delete_task_present k s Hin) as (ts' & Hdel & ->). simpl.
    intros task u [k' Ht]%dict_values_elem Hu Hne. simpl in *.
    eapply Hs; [|done..]. apply dict_values_elem. exists k'.
    eapply elem_of_sublist; [done|]. by eapply dict_delitem_sublist.
  - intros task u Hin. by apply elem_of_nil in Hin.
Qed.

Lemma run_integrity uuid4 rs s :
  wf s →
  referential_integrity_truthy s →
  referential_integrity_truthy (run uuid4 rs s).
Proof.
  revert s. induction rs as [|r rs IH]; intros s Hwf Hs; simpl; [done|].
  apply IH; [by apply exec_wf | by apply exec_integrity].
Qed.
End invariants.

(** ** Properties of the store *)

Section store_properties.
Import api store.
Implicit Types (s : State) (us : dict UserResponse.t) (ts : dict TaskResponse.t).

(** C1, as the design document states it, fails: a task created with the
    empty string as [user_id] passes the truthiness guard of
    [create_task] and is stored although no user has that id. *)
Lemma referential_integrity_counterexample :
  ¬ referential_integrity (run sample.uuid4 [CreateTask sample.orphan] init).
Proof.
  intros Hri.
  assert ("" ∈ dict_keys (users_db
            (run sample.uuid4 [CreateTask sample.orphan] init))) as Hin.
  { apply (Hri (task_data "uuid-0" sample.orphan) ""); [|reflexivity].
    vm_compute. left. }
  vm_compute in Hin. by apply elem_of_nil in Hin.
Qed.

(** C1, amended: in every state reached from the empty store by any
    sequence of create_user, update_user, delete_user, create_task,
    update_task, complete_task, delete_task (and reset) requests, and
    whatever identifiers [uuid4] hands out, every task whose [user_id]
    is a non-empty string names a user present in [users_db]. *)
Theorem reachable_referential_integrity (uuid4 : nat → string)
    (rs : list request) :
  referential_integrity_truthy (run uuid4 rs init).
Proof.
  apply run_integrity; [apply wf_init|].
  intros task u Hin. by apply elem_of_nil in Hin.
Qed.

(** C2: on a store whose user collection holds [u], [delete_user u]
    returns, after which listing the tasks of [u] yields the empty
    sequence and [get_user u] fails with NotFound; on a store that does
    not hold [u], [delete_user u] fails with NotFound and leaves the
    state as it was. *)
Theorem delete_user_cascade s (u : string) :
  wf s →
  (u ∈ dict_keys (users_db s) →
     ∃ s', delete_user u s = (Return "User deleted successfully", s') ∧
           get_tasks None (Some u) s' = (Return [], s') ∧
           ∃ e, get_user u s' = (Raise e, s') ∧ NotFound e) ∧
  (u ∉ dict_keys (users_db s) →
     ∃ e, delete_user u s = (Raise e, s) ∧ NotFound e).
Proof.
  intros Hwf. split.
  - intros Hin.
    destruct (delete_user_present u s (wf_tasks s Hwf) Hin)
      as (us' & Hdel & Heq).
    eexists. split; [exact Heq|]. split.
    + rewrite get_tasks_eq. simpl. do 2 f_equal.
      match goal with |- ?l = [] => destruct l as [|t rest] eqn:Hl end;
        [done|].
      assert (t ∈ t :: rest) as Ht by left. rewrite <- Hl in Ht.
      apply list_elem_of_filter in Ht as [Hown [k Ht]%dict_values_elem].
      by apply list_elem_of_filter in Ht as [Hother _].
    + eexists. split; [|].
      { apply get_user_absent. simpl.
        eapply dict_delitem_gone; [by apply wf_users | done]. }
      exact I.
  - intros Hnin. eexists. split; [by apply delete_user_absent | exact I].
Qed.

Lemma delete_user_cascade_witness :
  ∃ s', delete_user "uuid-0" sample.state
        = (Return "User deleted successfully", s') ∧
        get_tasks None (Some "uuid-0") s' = (Return [], s') ∧
        ∃ e, get_user "uuid-0" s' = (Raise e, s') ∧ NotFound e.
Proof.
  apply (delete_user_cascade sample.state "uuid-0").
  - compute_done.
  - compute_done.
Defined.

(** C3: for every state, boolean [c] and string [u], the tasks listed
    under both filters are exactly the tasks listed under
    [completed = c] that are also listed under [user_id = u]: the same
    elements, and in fact the same sequence.  A task is listed under
    both iff it is stored, its [completed] field equals [c] and its
    [user_id] is the string [u], so a task without owner never
    matches. *)
Theorem get_tasks_filter_composition s (c : bool) (u : string) :
  ∃ both only_c only_u,
    get_tasks (Some c) (Some u) s = (Return both, s) ∧
    get_tasks (Some c) None s = (Return only_c, s) ∧
    get_tasks None (Some u) s = (Return only_u, s) ∧
    (∀ t, t ∈ both ↔ t ∈ only_c ∧ t ∈ only_u) ∧
    both = filter (λ t, t ∈ only_u) only_c ∧
    (∀ t, t ∈ both ↔
          t ∈ dict_values (tasks_db s) ∧
          TaskResponse.completed t = c ∧
          TaskResponse.user_id t = Some u).
Proof.
  do 3 eexists. rewrite !get_tasks_eq. simpl.
  split; [done|]. split; [done|]. split; [done|].
  assert (∀ t, t ∈ filter (λ task, TaskResponse.completed task = c)
                     (dict_values (tasks_db s)) →
               (TaskResponse.user_id t = Some u ↔
                t ∈ filter (λ task, TaskResponse.user_id task = Some u)
                      (dict_values (tasks_db s)))) as Hagree.
  { intros t [_ Ht]%list_elem_of_filter. rewrite list_elem_of_filter. tauto. }
  split; [|split].
  - intros t. rewrite !list_elem_of_filter. tauto.
  - by apply filter_ext_elem.
  - intros t. rewrite !list_elem_of_filter. tauto.
Qed.

Lemma filter_by_both_sample :
  get_tasks (Some false) (Some "uuid-0") sample.state
  = (Return [task_data "uuid-1" sample.report], sample.state).
Proof. reflexivity. Qed.

(** C8: for every state and every choice of the two optional filters,
    the sequence [get_tasks] returns is a subsequence of the one it
    returns without filters on the same state: filtering drops tasks and
    keeps the others in their order. *)
Theorem get_tasks_order_stable s (completed : option bool)
    (user_id : option string) :
  ∃ filtered everything,
    get_tasks completed user_id s = (Return filtered, s) ∧
    get_tasks None None s = (Return everything, s) ∧
    filtered `sublist_of` everything.
Proof.
  do 2 eexists. rewrite !get_tasks_eq. simpl.
  split; [done|]. split; [done|].
  destruct completed as [c|], user_id as [u|]; try done.
  - etrans; apply sublist_filter.
  - apply sublist_filter.
  - apply sublist_filter.
Qed.
(** C4, as stated, fails: the empty string resolves to no user, yet
    [create_task] does not reject it. *)
Lemma invalid_reference_counterexample :
  Task.user_id sample.orphan = Some "" ∧
  ("" ∉ dict_keys (users_db init)) ∧
  ¬ ∃ e, create_task sample.uuid4 sample.orphan init = (Raise e, init) ∧
         InvalidReference e.
Proof.
  split; [done|]. split; [apply not_elem_of_nil|].
  intros (e & Heq & _). vm_compute in Heq. discriminate Heq.
Qed.

(** C4, amended: when the [user_id] of the body is a non-empty string
    that is not the id of a stored user, [create_task] fails with
    InvalidReference and [update_task] of any stored task fails with
    InvalidReference, both leaving the whole state (so the existing
    record too) as it was. *)
Theorem invalid_reference_atomic (uuid4 : nat → string) s
    (task : Task.t) (u : string) :
  Task.user_id task = Some u →
  u ≠ "" →
  u ∉ dict_keys (users_db s) →
  (∃ e, create_task uuid4 task s = (Raise e, s) ∧ InvalidReference e) ∧
  (∀ task_id, task_id ∈ dict_keys (tasks_db s) →
     ∃ e, update_task task_id task s = (Raise e, s) ∧ InvalidReference e).
Proof.
  intros Hu Hne Hnin.
  assert (dangling (Task.user_id task) s) as Hd.
  { by exists u. }
  split.
  - eexists. split; [by apply create_task_rejected | exact I].
  - intros task_id Hin. eexists.
    split; [by apply update_task_rejected | exact I].
Qed.

Lemma invalid_reference_atomic_witness :
  (∃ e, create_task sample.uuid4 sample.stray sample.state
        = (Raise e, sample.state) ∧ InvalidReference e) ∧
  (∃ e, update_task "uuid-1" sample.stray sample.state
        = (Raise e, sample.state) ∧ InvalidReference e).
Proof.
  destruct (invalid_reference_atomic sample.uuid4 sample.state
              sample.stray "missing") as [Hcreate Hupdate].
  - reflexivity.
  - compute_done.
  - compute_done.
  - split; [exact Hcreate|]. apply Hupdate. compute_done.
Defined.

(** C5: for a stored task, [complete_task] returns the task with
    [completed] set and its id, title, description and [user_id] as
    they were, stores exactly that record under the task's key, and
    changes neither another task, nor the order of the tasks, nor the
    users; a second call right after returns the same task and leaves
    the state of the first call. *)
Theorem complete_task_idempotent s (task_id : string) :
  task_id ∈ dict_keys (tasks_db s) →
  ∃ t t' s1,
    dict_getitem task_id (tasks_db s) = Some t ∧
    complete_task task_id s = (Return t', s1) ∧
    TaskResponse.completed t' = true ∧
    TaskResponse.id t' = TaskResponse.id t ∧
    TaskResponse.title t' = TaskResponse.title t ∧
    TaskResponse.description t' = TaskResponse.description t ∧
    TaskResponse.user_id t' = TaskResponse.user_id t ∧
    get_task task_id s1 = (Return t', s1) ∧
    (∀ k, k ≠ task_id →
          dict_getitem k (tasks_db s1) = dict_getitem k (tasks_db s)) ∧
    dict_keys (tasks_db s1) = dict_keys (tasks_db s) ∧
    users_db s1 = users_db s ∧
    uuid_calls s1 = uuid_calls s ∧
    complete_task task_id s1 = (Return t', s1).
Proof.
  intros Hin. pose proof Hin as [t Hget]%dict_getitem_is_Some.
  exists t, (mark_completed t). eexists.
  split; [done|]. split; [by apply complete_task_present|].
  do 5 (split; [done|]). simpl.
  split; [apply get_task_present; simpl; apply dict_getitem_setitem_eq|].
  split; [intros k Hk; by apply dict_getitem_setitem_ne|].
  split; [by apply dict_keys_setitem_old|].
  do 2 (split; [done|]).
  rewrite (complete_task_present task_id (mark_completed t))
    by apply dict_getitem_setitem_eq.
  simpl. by rewrite dict_setitem_idem.
Qed.

Lemma complete_task_idempotent_witness :
  ∃ t' s1,
    complete_task "uuid-1" sample.state = (Return t', s1) ∧
    TaskResponse.completed t' = true ∧
    complete_task "uuid-1" s1 = (Return t', s1).
Proof.
  destruct (complete_task_idempotent sample.state "uuid-1")
    as (t & t' & s1 & _ & Hfirst & Hdone & _ & _ & _ & _ & _ & _ & _ & _
        & _ & Hsecond).
  - compute_done.
  - by exists t', s1.
Defined.

(** C7: for a stored user id, [update_user] returns and stores under
    that id a record with the name, email and age of the body and with
    the id the record had before; other users, the order of the users
    and the tasks are untouched.  For an id that is not stored it fails
    with NotFound and leaves the state as it was. *)
Theorem update_user_semantics s (user_id : string) (user : User.t) :
  wf s →
  (user_id ∈ dict_keys (users_db s) →
     ∃ old new s',
       dict_getitem user_id (users_db s) = Some old ∧
       update_user user_id user s = (Return new, s') ∧
       get_user user_id s' = (Return new, s') ∧
       UserResponse.name new = User.name user ∧
       UserResponse.email new = User.email user ∧
       UserResponse.age new = User.age user ∧
       UserResponse.id new = UserResponse.id old ∧
       UserResponse.id new = user_id ∧
       (∀ k, k ≠ user_id →
             dict_getitem k (users_db s') = dict_getitem k (users_db s)) ∧
       dict_keys (users_db s') = dict_keys (users_db s) ∧
       tasks_db s' = tasks_db s) ∧
  (user_id ∉ dict_keys (users_db s) →
     ∃ e, update_user user_id user s = (Raise e, s) ∧ NotFound e).
Proof.
  intros Hwf. split.
  - intros Hin. pose proof Hin as [old Hget]%dict_getitem_is_Some.
    exists old, (user_data user_id user). eexists.
    split; [done|]. split; [by apply update_user_present|].
    split; [apply get_user_present; simpl; apply dict_getitem_setitem_eq|].
    do 3 (split; [done|]).
    split.
    { simpl. symmetry. apply (wf_user_ids s); [done|].
      by apply dict_getitem_item. }
    split; [done|]. simpl.
    split; [intros k Hk; by apply dict_getitem_setitem_ne|].
    split; [by apply dict_keys_setitem_old | done].
  - intros Hnin. eexists. split; [by apply update_user_absent | exact I].
Qed.

Lemma update_user_semantics_witness :
  ∃ new s',
    update_user "uuid-0" sample.bob sample.state = (Return new, s') ∧
    UserResponse.name new = "Bob" ∧ UserResponse.id new = "uuid-0".
Proof.
  destruct (update_user_semantics sample.state "uuid-0" sample.bob)
    as [Hpresent _].
  - compute_done.
  - destruct Hpresent as (old & new & s' & _ & Hupd & _ & Hname & _ & _ & _
                          & Hid & _); [compute_done|].
    by exists new, s'.
Defined.

(** C10: [create_task] raises exactly when the [user_id] of the body
    is a non-empty string that is not a key of [users_db]; what it
    raises is then InvalidReference, with the state untouched.  With
    the empty string as [user_id] it returns, whatever the users are,
    and the stored task has the empty string as its [user_id]. *)
Theorem create_task_raises_iff (uuid4 : nat → string) s (task : Task.t) :
  ((∃ e s', create_task uuid4 task s = (Raise e, s') ∧ InvalidReference e) ↔
   (∃ u, Task.user_id task = Some u ∧ u ≠ "" ∧
         u ∉ dict_keys (users_db s))) ∧
  (∀ e s', create_task uuid4 task s = (Raise e, s') →
           InvalidReference e ∧ s' = s) ∧
  (Task.user_id task = Some "" →
     ∃ t s', create_task uuid4 task s = (Return t, s') ∧
             TaskResponse.user_id t = Some "" ∧
             get_task (TaskResponse.id t) s' = (Return t, s')).
Proof.
  destruct (dangling_dec (Task.user_id task) s) as [Hd | Hd].
  - rewrite create_task_rejected by done. split; [|split].
    + split; [by intros _|]. intros _. do 2 eexists. by split.
    + by intros e s' [= <- <-].
    + intros Hu. destruct Hd as (u & Hu' & Hne & _). congruence.
  - rewrite create_task_accepted by done. split; [|split].
    + split; [by intros (e & s' & [=] & _) | done].
    + by intros e s' [=].
    + intros Hu. do 2 eexists. split; [done|]. split; [done|].
      apply get_task_present. simpl. apply dict_getitem_setitem_eq.
Qed.

Lemma create_task_empty_user_id :
  ∃ t s', create_task sample.uuid4 sample.orphan sample.state
          = (Return t, s') ∧
          TaskResponse.user_id t = Some "" ∧
          get_task (TaskResponse.id t) s' = (Return t, s').
Proof.
  by apply (create_task_raises_iff sample.uuid4 sample.state sample.orphan).
Defined.
End store_properties.

(** ** Facts about binary64 division *)

Section float_facts.
Import cli.

Lemma digits2_pos_bounds p :
  2 ^ Zpos (digits2_pos p) <= 2 * Zpos p < 2 ^ (Zpos (digits2_pos p) + 1).
Proof.
  induction p as [p IH | p IH |]; simpl digits2_pos.
  - rewrite Pos2Z.inj_succ, Z.pow_add_r, Z.pow_succ_r by lia.
    rewrite Z.pow_add_r in IH by lia.
    change (Z.pos p~1) with (2 * Z.pos p + 1).
    change (2 ^ 1) with 2 in *.
    generalize dependent (2 ^ Z.pos (digits2_pos p)). intros X IH. lia.
  - rewrite Pos2Z.inj_succ, Z.pow_add_r, Z.pow_succ_r by lia.
    rewrite Z.pow_add_r in IH by lia.
    change (Z.pos p~0) with (2 * Z.pos p).
    change (2 ^ 1) with 2 in *.
    generalize dependent (2 ^ Z.pos (digits2_pos p)). intros X IH. lia.
  - simpl. lia.
Qed.

Lemma digits2_pos_53 p :
  2 ^ 52 <= Zpos p < 2 ^ 53 -> Zpos (digits2_pos p) = 53.
Proof.
  intros Hp. pose proof (digits2_pos_bounds p) as [Hlo Hhi].
  assert (Zpos (digits2_pos p) < 54).
  { apply (Z.pow_lt_mono_r_iff 2); lia. }
  assert (53 < Zpos (digits2_pos p) + 1).
  { apply (Z.pow_lt_mono_r_iff 2); lia. }
  lia.
Qed.

Lemma digits2_pos_54 p :
  2 ^ 53 <= Zpos p < 2 ^ 54 -> Zpos (digits2_pos p) = 54.
Proof.
  intros Hp. pose proof (digits2_pos_bounds p) as [Hlo Hhi].
  assert (Zpos (digits2_pos p) < 55).
  { apply (Z.pow_lt_mono_r_iff 2); lia. }
  assert (54 < Zpos (digits2_pos p) + 1).
  { apply (Z.pow_lt_mono_r_iff 2); lia. }
  lia.
Qed.

Lemma shr_m_of_loc m l : shr_m (shr_record_of_loc m l) = m.
Proof. destruct l as [|[]]; reflexivity. Qed.

Lemma loc_of_loc m l : loc_of_shr_record (shr_record_of_loc m l) = l.
Proof. destruct l as [|[]]; reflexivity. Qed.

Lemma round_nearest_even_bounds m l :
  m <= round_nearest_even m l <= m + 1.
Proof.
  unfold round_nearest_even. destruct l as [|[]]; try lia.
  destruct (Z.even m); lia.
Qed.

Lemma shr_1_pos p r s :
  2 <= Zpos p ->
  exists p', shr_m (shr_1 (Build_shr_record (Zpos p) r s)) = Zpos p' /\
             Zpos p' = Zpos p / 2.
Proof.
  intros Hp. destruct p as [p | p |]; [| |lia].
  - exists p. split; [reflexivity|].
    change (Z.pos p~1) with (2 * Z.pos p + 1).
    apply Z.div_unique with 1; lia.
  - exists p. split; [reflexivity|].
    change (Z.pos p~0) with (2 * Z.pos p).
    apply Z.div_unique with 0; lia.
Qed.

(** Bringing a mantissa of 53 or 54 bits to 53 bits. *)
Lemma shr_fexp_norm p e l :
  2 ^ 52 <= Zpos p < 2 ^ 54 -> -1074 <= e ->
  exists mrs e2 p',
    shr_fexp 53 1024 (Zpos p) e l = (mrs, e2) /\
    shr_m mrs = Zpos p' /\
    2 ^ 52 <= Zpos p' < 2 ^ 53 /\
    ((Zpos p < 2 ^ 53 /\ mrs = shr_record_of_loc (Zpos p) l /\ e2 = e) \/
     (2 ^ 53 <= Zpos p /\ e2 = e + 1 /\ Zpos p' = Zpos p / 2)).
Proof.
  intros Hp He. destruct (Z.lt_ge_cases (Zpos p) (2 ^ 53)) as [Hlt | Hge].
  - exists (shr_record_of_loc (Zpos p) l), e, p.
    split; [|split; [apply shr_m_of_loc | split; [lia | left; auto]]].
    unfold shr_fexp, fexp, emin. simpl Zdigits2.
    rewrite digits2_pos_53 by lia.
    replace (Z.max (53 + e - 53) (3 - 1024 - 53) - e) with 0 by lia.
    reflexivity.
  - assert (shr_fexp 53 1024 (Zpos p) e l
            = (shr_1 (shr_record_of_loc (Zpos p) l), e + 1)) as Heq.
    { unfold shr_fexp, fexp, emin. simpl Zdigits2.
      rewrite digits2_pos_54 by lia.
      replace (Z.max (54 + e - 53) (3 - 1024 - 53) - e) with 1 by lia.
      reflexivity. }
    assert (exists p', shr_m (shr_1 (shr_record_of_loc (Zpos p) l)) = Zpos p'
                       /\ Zpos p' = Zpos p / 2) as (p' & Hm & Hp').
    { destruct l as [|[]]; apply shr_1_pos; lia. }
    exists (shr_1 (shr_record_of_loc (Zpos p) l)), (e + 1), p'.
    split; [exact Heq|]. split; [exact Hm|]. split.
    + rewrite Hp'. split.
      * apply Z.div_le_lower_bound; lia.
      * apply Z.div_lt_upper_bound; lia.
    + right. auto.
Qed.

(** Rounding a quotient of 53 or 54 bits gives a positive normal
    number. *)
Lemma binary_round_aux_normal s q e l :
  2 ^ 52 <= q < 2 ^ 54 -> -1074 <= e <= 960 ->
  exists m e2,
    binary_round_aux 53 1024 s q e l = S754_finite s m e2 /\
    2 ^ 52 <= Zpos m < 2 ^ 53 /\ e <= e2 <= e + 2.
Proof.
  intros Hq He. destruct q as [|p|p]; [lia| |lia].
  destruct (shr_fexp_norm p e l Hq) as (mrs & e1 & p1 & Hs1 & Hm1 & Hp1 & Hc1);
    [lia|].
  assert (e <= e1 <= e + 1) as He1 by (destruct Hc1 as [(_ & _ & ->)|(_ & -> & _)]; lia).
  unfold binary_round_aux. rewrite Hs1, Hm1.
  pose proof (round_nearest_even_bounds (Zpos p1) (loc_of_shr_record mrs)) as Hr.
  destruct (round_nearest_even (Zpos p1) (loc_of_shr_record mrs))
    as [|p2|p2] eqn:Hround; [lia| |lia].
  destruct (shr_fexp_norm p2 e1 loc_Exact) as (mrs2 & e2 & p3 & Hs2 & Hm2 & Hp3 & Hc2);
    [lia | lia |].
  assert (e1 <= e2 <= e1 + 1) as He2 by (destruct Hc2 as [(_ & _ & ->)|(_ & -> & _)]; lia).
  rewrite Hs2, Hm2.
  replace (e2 <=? 1024 - 53) with true by (symmetry; apply Z.leb_le; lia).
  exists p3, e2. split; [reflexivity|]. split; lia.
Qed.

Lemma binary_round_aux_exact s p e :
  2 ^ 52 <= Zpos p < 2 ^ 53 -> -1074 <= e <= 971 ->
  binary_round_aux 53 1024 s (Zpos p) e loc_Exact = S754_finite s p e.
Proof.
  intros Hp He.
  assert (forall l, shr_fexp 53 1024 (Zpos p) e l
                    = (shr_record_of_loc (Zpos p) l, e)) as Hshr.
  { intros l. destruct (shr_fexp_norm p e l) as (mrs & e2 & p' & -> & _ & _ & Hc);
      [lia | lia |].
    destruct Hc as [(_ & -> & ->) | (Hge & _)]; [reflexivity | lia]. }
  unfold binary_round_aux. rewrite Hshr. simpl. rewrite Hshr. simpl.
  match goal with |- context [?a <=? ?b] =>
    replace (a <=? b) with true by (symmetry; apply Z.leb_le; lia) end.
  reflexivity.
Qed.

Lemma pos_iter_xO p k : Zpos (Pos.iter xO p k) = Zpos p * 2 ^ Zpos k.
Proof.
  induction k as [|k IH] using Pos.peano_ind.
  - simpl. lia.
  - rewrite Pos.iter_succ, Pos2Z.inj_succ, Z.pow_succ_r by lia.
    change (Z.pos (Pos.iter xO p k)~0) with (2 * Z.pos (Pos.iter xO p k)).
    rewrite IH. lia.
Qed.

(** An integer below 2^53 converts exactly. *)
Lemma float_of_int_exact n :
  0 < n < 2 ^ 53 ->
  exists m e,
    float_of_int n = S754_finite false m e /\
    2 ^ 52 <= Zpos m < 2 ^ 53 /\ -52 <= e <= 0 /\
    Zpos m = n * 2 ^ (- e).
Proof.
  intros Hn. destruct n as [|p|p]; [lia| |lia].
  unfold float_of_int, binary_normalize, binary_round.
  pose proof (digits2_pos_bounds p) as [Hlo Hhi].
  set (d := Zpos (digits2_pos p)) in *.
  assert (0 < d) as Hd0 by (subst d; lia).
  assert (d < 54) as Hd by (apply (Z.pow_lt_mono_r_iff 2); lia).
  unfold fexp, emin.
  replace (Z.max (d + 0 - 53) (3 - 1024 - 53)) with (d - 53) by lia.
  unfold shl_align. destruct (d - 53 - 0) as [|k|k] eqn:Hk; [| lia |].
  - assert (d = 53) as Hd53 by lia. rewrite Hd53 in *.
    exists p, 0. split; [apply binary_round_aux_exact; lia|].
    split; [lia|]. split; [lia|]. simpl. lia.
  - assert (Zpos k = 53 - d) as Hk' by lia.
    assert (2 ^ 53 = 2 ^ d * 2 ^ Zpos k) as H53.
    { rewrite <- Z.pow_add_r by lia. f_equal. lia. }
    assert (2 ^ 54 = 2 ^ (d + 1) * 2 ^ Zpos k) as H54.
    { rewrite <- Z.pow_add_r by lia. f_equal. lia. }
    assert (0 < 2 ^ Zpos k) as Hpow by (apply Z.pow_pos_nonneg; lia).
    assert (2 ^ 52 <= Zpos (Pos.iter xO p k) < 2 ^ 53) as Hm.
    { rewrite pos_iter_xO. split.
      - assert (2 ^ 53 <= 2 * Zpos p * 2 ^ Zpos k).
        { rewrite H53. apply Z.mul_le_mono_nonneg_r; lia. }
        lia.
      - assert (2 * Zpos p * 2 ^ Zpos k < 2 ^ 54).
        { rewrite H54. apply Z.mul_lt_mono_pos_r; lia. }
        lia. }
    exists (Pos.iter xO p k), (d - 53).
    split; [apply binary_round_aux_exact; lia|].
    split; [lia|]. split; [lia|].
    rewrite pos_iter_xO. f_equal. f_equal. lia.
Qed.

(** The quotient of two normal numbers with small exponents. *)
Lemma SFdiv_normal mx ex my ey :
  2 ^ 52 <= Zpos mx < 2 ^ 53 -> 2 ^ 52 <= Zpos my < 2 ^ 53 ->
  -52 <= ex <= 0 -> -52 <= ey <= 0 ->
  exists q r,
    Z.div_eucl (Zpos mx * 2 ^ 53) (Zpos my) = (q, r) /\
    2 ^ 52 <= q < 2 ^ 54 /\
    SFdiv 53 1024 (S754_finite false mx ex) (S754_finite false my ey)
    = binary_round_aux 53 1024 false q (ex - ey - 53)
        (new_location (Zpos my) r).
Proof.
  intros Hmx Hmy Hex Hey.
  destruct (Z.div_eucl (Zpos mx * 2 ^ 53) (Zpos my)) as [q r] eqn:Hdiv.
  exists q, r. split; [reflexivity|].
  assert (q = (Zpos mx * 2 ^ 53) / Zpos my) as Hq.
  { unfold Z.div. rewrite Hdiv. reflexivity. }
  split.
  { rewrite Hq. split.
    - apply Z.div_le_lower_bound; lia.
    - apply Z.div_lt_upper_bound; lia. }
  unfold SFdiv, SFdiv_core_binary. simpl Zdigits2.
  rewrite !digits2_pos_53 by lia.
  unfold fexp, emin.
  replace (Z.min (Z.max (53 + ex - (53 + ey) - 53) (3 - 1024 - 53)) (ex - ey))
    with (ex - ey - 53) by lia.
  replace (ex - ey - (ex - ey - 53)) with 53 by lia.
  rewrite Z.shiftl_mul_pow2 by lia. rewrite Hdiv. reflexivity.
Qed.

(** The quotient of two positive integers below 2^53 is a positive
    normal number. *)
Lemma true_divide_pos a b :
  0 < a < 2 ^ 53 -> 0 < b < 2 ^ 53 ->
  exists m e, true_divide a b = S754_finite false m e.
Proof.
  intros Ha Hb. unfold true_divide.
  destruct (float_of_int_exact a Ha) as (ma & ea & -> & Hma & Hea & _).
  destruct (float_of_int_exact b Hb) as (mb & eb & -> & Hmb & Heb & _).
  destruct (SFdiv_normal ma ea mb eb) as (q & r & _ & Hq & ->); try done.
  destruct (binary_round_aux_normal false q (ea - eb - 53)
              (new_location (Zpos mb) r)) as (m & e & -> & _); [lia | lia |].
  by exists m, e.
Qed.

Lemma true_divide_zero b :
  0 < b < 2 ^ 53 -> true_divide 0 b = S754_zero false.
Proof.
  intros Hb. unfold true_divide.
  destruct (float_of_int_exact b Hb) as (mb & eb & -> & _). reflexivity.
Qed.

Lemma true_divide_same a :
  0 < a < 2 ^ 53 -> true_divide a a = S754_finite false 4503599627370496 (-52).
Proof.
  intros Ha. unfold true_divide.
  destruct (float_of_int_exact a Ha) as (m & e & -> & Hm & He & _).
  destruct (SFdiv_normal m e m e) as (q & r & Hdiv & Hq & ->); try done.
  assert (q = 2 ^ 53 /\ r = 0) as [-> ->].
  { assert (q = (Zpos m * 2 ^ 53) / Zpos m) as Hq'
      by (unfold Z.div; rewrite Hdiv; reflexivity).
    assert (r = (Zpos m * 2 ^ 53) mod Zpos m) as Hr'
      by (unfold Z.modulo; rewrite Hdiv; reflexivity).
    rewrite Hq', Hr'. rewrite (Z.mul_comm (Zpos m)).
    rewrite Z.div_mul, Z.mod_mul by lia. split; reflexivity. }
  replace (e - e - 53) with (-53) by lia.
  assert (new_location (Zpos m) 0 = loc_Exact) as ->.
  { unfold new_location, new_location_even, new_location_odd.
    destruct (Z.even (Zpos m)); reflexivity. }
  vm_compute. reflexivity.
Qed.

Lemma round_le_one q e l :
  2 ^ 52 <= q < 2 ^ 54 -> -1074 <= e ->
  (e <= -54 \/ (e = -53 /\ (q < 2 ^ 53 \/ (q = 2 ^ 53 /\ l = loc_Exact)))) ->
  SFleb (binary_round_aux 53 1024 false q e l) float_one = true.
Proof.
  intros Hq He Hcase.
  assert (e <= -54 \/ (e = -53 /\ q < 2 ^ 53) \/
          (e = -53 /\ q = 2 ^ 53 /\ l = loc_Exact)) as [Hlow | [Hmid | Htop]]
    by tauto.
  3: { destruct Htop as (-> & -> & ->). vm_compute. reflexivity. }
  all: destruct q as [|p|p]; [lia| |lia].
  all: destruct (shr_fexp_norm p e l Hq)
         as (mrs & e1 & p1 & Hs1 & Hm1 & Hp1 & Hc1); [lia|].
  all: unfold binary_round_aux; rewrite Hs1, Hm1.
  all: pose proof (round_nearest_even_bounds (Zpos p1) (loc_of_shr_record mrs))
         as Hr.
  all: destruct (round_nearest_even (Zpos p1) (loc_of_shr_record mrs))
         as [|p2|p2] eqn:Hround; [lia| |lia].
  all: destruct (shr_fexp_norm p2 e1 loc_Exact)
         as (mrs2 & e2 & p3 & Hs2 & Hm2 & Hp3 & Hc2);
         [lia | destruct Hc1 as [(_ & _ & ->)|(_ & -> & _)]; lia |].
  all: rewrite Hs2, Hm2.
  all: assert (e2 < -52 \/ (e2 = -52 /\ p3 = 4503599627370496%positive))
         as Hres.
  1, 3: destruct Hc1 as [(Hq1 & _ & ->)|(Hq1 & -> & Hp1')];
        destruct Hc2 as [(Hq2 & _ & ->)|(Hq2 & -> & Hp3')];
        try (left; lia);
        assert (Zpos p2 = 2 ^ 53) as Hp2 by lia;
        rewrite Hp2 in Hp3'; change (2 ^ 53 / 2) with (2 ^ 52) in Hp3';
        destruct (Z.eq_dec e (-54)); first [left; lia | right; lia].
  all: replace (e2 <=? 1024 - 53) with true
         by (symmetry; apply Z.leb_le; lia).
  all: unfold SFleb, SFcompare, float_one.
  all: destruct Hres as [Hlt | [-> ->]];
       [rewrite (proj2 (Z.compare_lt_iff _ _) Hlt) | ]; reflexivity.
Qed.

Lemma true_divide_le_one a b :
  0 <= a <= b -> 0 < b < 2 ^ 53 ->
  SFleb (true_divide a b) float_one = true.
Proof.
  intros Hab Hb. destruct (Z.eq_dec a 0) as [-> | Ha0].
  { rewrite true_divide_zero by done. reflexivity. }
  unfold true_divide.
  destruct (float_of_int_exact a) as (ma & ea & -> & Hma & Hea & Hva); [lia|].
  destruct (float_of_int_exact b Hb) as (mb & eb & -> & Hmb & Heb & Hvb).
  destruct (SFdiv_normal ma ea mb eb) as (q & r & Hdiv & Hq & ->); try done.
  assert (q = (Zpos ma * 2 ^ 53) / Zpos mb) as Hq'
    by (unfold Z.div; rewrite Hdiv; reflexivity).
  assert (r = (Zpos ma * 2 ^ 53) mod Zpos mb) as Hr'
    by (unfold Z.modulo; rewrite Hdiv; reflexivity).
  assert (0 < 2 ^ (- ea)) as HX by (apply Z.pow_pos_nonneg; lia).
  assert (ea <= eb) as Hexp.
  { apply Z.le_ngt. intros Hlt.
    assert (2 ^ (- eb) = 2 ^ (- ea) * 2 ^ (ea - eb)) as Hsplit.
    { rewrite <- Z.pow_add_r by lia. f_equal. lia. }
    assert (2 ^ 1 <= 2 ^ (ea - eb)) as HY by (apply Z.pow_le_mono_r; lia).
    change (2 ^ 1) with 2 in HY.
    rewrite Hsplit in Hvb.
    generalize dependent (2 ^ (- ea)). generalize dependent (2 ^ (ea - eb)).
    intros Y HY X. intros. nia. }
  apply round_le_one; [done | lia |].
  destruct (Z.eq_dec ea eb) as [<- | Hne]; [|left; lia].
  right. split; [lia|].
  assert (Zpos ma <= Zpos mb) as Hle.
  { rewrite Hva, Hvb. apply Z.mul_le_mono_nonneg_r; lia. }
  destruct (Z.eq_dec (Zpos ma) (Zpos mb)) as [Heq | Hneq].
  - right. rewrite Hq', Hr', Heq. rewrite (Z.mul_comm (Zpos mb)).
    rewrite Z.div_mul, Z.mod_mul by lia. split; [reflexivity|].
    unfold new_location, new_location_even, new_location_odd.
    destruct (Z.even (Zpos mb)); reflexivity.
  - left. rewrite Hq'. apply Z.div_lt_upper_bound; lia.
Qed.

Lemma round_lt_one q e l :
  2 ^ 52 <= q < 2 ^ 54 -> -1074 <= e ->
  (e <= -55 \/ (e = -54 /\ q <= 2 ^ 54 - 3) \/ (e = -53 /\ q <= 2 ^ 53 - 2)) ->
  exists m e2,
    binary_round_aux 53 1024 false q e l = S754_finite false m e2 /\
    e2 <= -53.
Proof.
  intros Hq He Hcase.
  destruct q as [|p|p]; [lia| |lia].
  destruct (shr_fexp_norm p e l Hq)
    as (mrs & e1 & p1 & Hs1 & Hm1 & Hp1 & Hc1); [lia|].
  unfold binary_round_aux; rewrite Hs1, Hm1.
  pose proof (round_nearest_even_bounds (Zpos p1) (loc_of_shr_record mrs))
    as Hr.
  destruct (round_nearest_even (Zpos p1) (loc_of_shr_record mrs))
    as [|p2|p2] eqn:Hround; [lia| |lia].
  destruct (shr_fexp_norm p2 e1 loc_Exact)
    as (mrs2 & e2 & p3 & Hs2 & Hm2 & Hp3 & Hc2);
    [lia | destruct Hc1 as [(_ & _ & ->)|(_ & -> & _)]; lia |].
  rewrite Hs2, Hm2.
  assert (e2 <= -53) as Hres.
  { destruct Hc1 as [(Hq1 & Hmrs & ->)|(Hq1 & -> & Hp1')].
    - assert (Zpos p1 = Zpos p) as Hpp.
      { rewrite <- Hm1, Hmrs. apply shr_m_of_loc. }
      destruct Hc2 as [(Hq2 & _ & ->)|(Hq2 & -> & _)]; lia.
    - assert (Zpos p1 < 2 ^ 53 - 1 \/ e <= -55) as Hp1''.
      { destruct Hcase as [? | [[-> Hq'] | [-> Hq']]]; [by right | | lia].
        left. rewrite Hp1'. apply Z.div_lt_upper_bound; lia. }
      destruct Hc2 as [(Hq2 & _ & ->)|(Hq2 & -> & _)]; lia. }
  replace (e2 <=? 1024 - 53) with true
    by (symmetry; apply Z.leb_le; lia).
  by exists p3, e2.
Qed.

Lemma true_divide_lt_one a b :
  0 < a < b -> b < 2 ^ 53 ->
  exists m e, true_divide a b = S754_finite false m e /\ e <= -53.
Proof.
  intros Hab Hb. unfold true_divide.
  destruct (float_of_int_exact a) as (ma & ea & -> & Hma & Hea & Hva); [lia|].
  destruct (float_of_int_exact b) as (mb & eb & -> & Hmb & Heb & Hvb); [lia|].
  destruct (SFdiv_normal ma ea mb eb) as (q & r & Hdiv & Hq & ->); try done.
  assert (q = (Zpos ma * 2 ^ 53) / Zpos mb) as Hq'
    by (unfold Z.div; rewrite Hdiv; reflexivity).
  assert (0 < 2 ^ (- ea)) as HX by (apply Z.pow_pos_nonneg; lia).
  assert (0 < 2 ^ (- eb)) as HX' by (apply Z.pow_pos_nonneg; lia).
  assert (ea <= eb) as Hexp.
  { apply Z.le_ngt. intros Hlt.
    assert (2 ^ (- eb) = 2 ^ (- ea) * 2 ^ (ea - eb)) as Hsplit.
    { rewrite <- Z.pow_add_r by lia. f_equal. lia. }
    assert (2 ^ 1 <= 2 ^ (ea - eb)) as HY by (apply Z.pow_le_mono_r; lia).
    change (2 ^ 1) with 2 in HY.
    rewrite Hsplit in Hvb. clear HX'.
    generalize dependent (2 ^ (- ea)). generalize dependent (2 ^ (ea - eb)).
    intros Y HY X. intros. nia. }
  apply round_lt_one; [done | lia |].
  destruct (Z.eq_dec eb ea) as [-> | Hne1].
  - right. right. split; [lia|].
    assert (Zpos ma + 1 <= Zpos mb) as Hle.
    { rewrite Hva, Hvb.
      generalize dependent (2 ^ (- ea)). intros X. intros. nia. }
    assert (q < 2 ^ 53 - 1); [|lia].
    rewrite Hq'. apply Z.div_lt_upper_bound; lia.
  - destruct (Z.eq_dec eb (ea + 1)) as [-> | Hne2]; [|left; lia].
    right. left. split; [lia|].
    assert (2 ^ (- ea) = 2 * 2 ^ (- (ea + 1))) as Hdouble.
    { rewrite <- Z.pow_succ_r by lia. f_equal. lia. }
    assert (Zpos ma + 2 <= 2 * Zpos mb) as Hle.
    { rewrite Hva, Hvb, Hdouble. clear HX Hdouble.
      generalize dependent (2 ^ (- (ea + 1))). intros X. intros. nia. }
    assert (q < 2 ^ 54 - 2); [|lia].
    rewrite Hq'. apply Z.div_lt_upper_bound; lia.
Qed.
Lemma new_location_located den r :
  0 <= r < den -> located (new_location den r) r den.
Proof.
  intros Hr. unfold new_location.
  destruct (Z.even den) eqn:Heven.
  - unfold new_location_even. destruct (Z.eqb_spec r 0) as [-> | Hne].
    + reflexivity.
    + unfold located. split; [lia | reflexivity].
  - unfold new_location_odd. destruct (Z.eqb_spec r 0) as [-> | Hne].
    + reflexivity.
    + unfold located. split; [lia|].
      assert (Z.odd den = true) as Hodd by (rewrite <- Z.negb_even, Heven; reflexivity).
      apply Z.odd_spec in Hodd as [k Hk].
      destruct (Z.compare_spec (2 * r + 1) den) as [H | H | H];
        [apply Z.compare_lt_iff | apply Z.compare_lt_iff
        | apply Z.compare_gt_iff]; lia.
Qed.

Lemma round_nearest_even_located q l num den :
  located l num den -> 0 <= num < den ->
  2 * Z.abs (round_nearest_even q l * den - (q * den + num)) <= den.
Proof.
  intros Hl Hnum. unfold round_nearest_even.
  destruct l as [|c]; unfold located in Hl.
  - subst num. replace (q * den - (q * den + 0)) with 0 by lia. simpl. lia.
  - destruct Hl as [Hpos Hc]. destruct c.
    + rewrite Z.compare_eq_iff in Hc. destruct (Z.even q); lia.
    + rewrite Z.compare_lt_iff in Hc. cbv iota. lia.
    + rewrite Z.compare_gt_iff in Hc. cbv iota. lia.
Qed.

(** One shift to the right keeps track of where the dropped part lies. *)
Lemma shr_1_located p l num den :
  located l num den -> 0 <= num < den ->
  let mrs := shr_1 (shr_record_of_loc (Zpos p) l) in
  exists bit, (bit = 0 \/ bit = 1) /\
    Zpos p = 2 * shr_m mrs + bit /\
    located (loc_of_shr_record mrs) (bit * den + num) (2 * den).
Proof.
  intros Hl Hnum mrs. subst mrs.
  destruct p as [p | p |].
  - exists 1. split; [by right|].
    destruct l as [|[]]; unfold located in *; (split; [reflexivity|]); cbn [shr_1 shr_record_of_loc loc_of_shr_record shr_m shr_r shr_s orb].
    + subst. split; [lia|]. apply Z.compare_eq_iff. lia.
    + destruct Hl as [? Hc]. split; [lia|]. apply Z.compare_gt_iff. lia.
    + destruct Hl as [? Hc]. split; [lia|]. apply Z.compare_gt_iff. lia.
    + destruct Hl as [? Hc]. split; [lia|]. apply Z.compare_gt_iff. lia.
  - exists 0. split; [by left|].
    destruct l as [|[]]; unfold located in *; (split; [reflexivity|]); cbn [shr_1 shr_record_of_loc loc_of_shr_record shr_m shr_r shr_s orb].
    + lia.
    + destruct Hl as [? Hc]. split; [lia|]. apply Z.compare_lt_iff. lia.
    + destruct Hl as [? Hc]. split; [lia|]. apply Z.compare_lt_iff. lia.
    + destruct Hl as [? Hc]. split; [lia|]. apply Z.compare_lt_iff. lia.
  - exists 1. split; [by right|].
    destruct l as [|[]]; unfold located in *; (split; [reflexivity|]); cbn [shr_1 shr_record_of_loc loc_of_shr_record shr_m shr_r shr_s orb].
    + subst. split; [lia|]. apply Z.compare_eq_iff. lia.
    + destruct Hl as [? Hc]. split; [lia|]. apply Z.compare_gt_iff. lia.
    + destruct Hl as [? Hc]. split; [lia|]. apply Z.compare_gt_iff. lia.
    + destruct Hl as [? Hc]. split; [lia|]. apply Z.compare_gt_iff. lia.
Qed.

Lemma shr_fexp_53 p e l :
  2 ^ 52 <= Zpos p < 2 ^ 53 -> -1074 <= e ->
  shr_fexp 53 1024 (Zpos p) e l = (shr_record_of_loc (Zpos p) l, e).
Proof.
  intros Hp He. unfold shr_fexp, fexp, emin. simpl Zdigits2.
  rewrite digits2_pos_53 by lia.
  replace (Z.max (53 + e - 53) (3 - 1024 - 53) - e) with 0 by lia.
  reflexivity.
Qed.

Lemma shr_fexp_54 p e l :
  2 ^ 53 <= Zpos p < 2 ^ 54 -> -1074 <= e ->
  shr_fexp 53 1024 (Zpos p) e l = (shr_1 (shr_record_of_loc (Zpos p) l), e + 1).
Proof.
  intros Hp He. unfold shr_fexp, fexp, emin. simpl Zdigits2.
  rewrite digits2_pos_54 by lia.
  replace (Z.max (54 + e - 53) (3 - 1024 - 53) - e) with 1 by lia.
  reflexivity.
Qed.

(** Rounding to nearest: the result [m * 2^e2] lies within half a unit
    in the last place of the value [(q + num / den) * 2^e] that is
    rounded. *)
Lemma binary_round_aux_nearest q e l num den :
  2 ^ 52 <= q < 2 ^ 54 -> -1074 <= e <= 960 ->
  located l num den -> 0 <= num < den ->
  exists m e2,
    binary_round_aux 53 1024 false q e l = S754_finite false m e2 /\
    2 ^ 52 <= Zpos m < 2 ^ 53 /\ e <= e2 <= e + 2 /\
    2 * Z.abs (Zpos m * 2 ^ (e2 - e) * den - (q * den + num))
    <= 2 ^ (e2 - e) * den.
Proof.
  intros Hq He Hl Hnum. destruct q as [|p|p]; [lia| |lia].
  unfold binary_round_aux.
  destruct (Z.lt_ge_cases (Zpos p) (2 ^ 53)) as [Hlt | Hge].
  - rewrite shr_fexp_53 by lia. rewrite shr_m_of_loc, loc_of_loc.
    pose proof (round_nearest_even_bounds (Zpos p) l) as Hr.
    pose proof (round_nearest_even_located (Zpos p) l num den Hl Hnum) as Hnear.
    destruct (round_nearest_even (Zpos p) l) as [|p2|p2]; [lia| |lia].
    destruct (Z.lt_ge_cases (Zpos p2) (2 ^ 53)) as [Hlt2 | Hge2].
    + rewrite shr_fexp_53 by lia. rewrite shr_m_of_loc.
      replace (e <=? 1024 - 53) with true by (symmetry; apply Z.leb_le; lia).
      exists p2, e. split; [reflexivity|]. split; [lia|]. split; [lia|].
      replace (e - e) with 0 by lia. change (2 ^ 0) with 1. lia.
    + rewrite shr_fexp_54 by lia.
      destruct (shr_1_pos p2 false false) as (p3 & Hm3 & Hp3); [lia|].
      change (shr_record_of_loc (Zpos p2) loc_Exact)
        with (Build_shr_record (Zpos p2) false false).
      rewrite Hm3.
      replace (e + 1 <=? 1024 - 53) with true by (symmetry; apply Z.leb_le; lia).
      assert (Zpos p2 = 2 ^ 53) as Hp2 by lia.
      rewrite Hp2 in Hp3. change (2 ^ 53 / 2) with (2 ^ 52) in Hp3.
      exists p3, (e + 1). split; [reflexivity|]. split; [lia|]. split; [lia|].
      replace (e + 1 - e) with 1 by lia. change (2 ^ 1) with 2.
      rewrite Hp3. rewrite Hp2 in Hnear. lia.
  - rewrite shr_fexp_54 by lia.
    destruct (shr_1_located p l num den Hl Hnum) as (bit & Hbit & Hsplit & Hl').
    set (mrs := shr_1 (shr_record_of_loc (Zpos p) l)) in *.
    assert (2 ^ 52 <= shr_m mrs < 2 ^ 53) as Hm1 by lia.
    destruct (shr_m mrs) as [|p1|p1] eqn:Hp1; [lia| |lia].
    pose proof (round_nearest_even_bounds (Zpos p1) (loc_of_shr_record mrs)) as Hr.
    assert (0 <= bit * den + num < 2 * den) as Hnum' by (destruct Hbit; subst; lia).
    pose proof (round_nearest_even_located (Zpos p1) (loc_of_shr_record mrs)
                  _ _ Hl' Hnum') as Hnear.
    destruct (round_nearest_even (Zpos p1) (loc_of_shr_record mrs))
      as [|p2|p2]; [lia| |lia].
    destruct (Z.lt_ge_cases (Zpos p2) (2 ^ 53)) as [Hlt2 | Hge2].
    + rewrite shr_fexp_53 by lia. rewrite shr_m_of_loc.
      replace (e + 1 <=? 1024 - 53) with true by (symmetry; apply Z.leb_le; lia).
      exists p2, (e + 1). split; [reflexivity|]. split; [lia|]. split; [lia|].
      replace (e + 1 - e) with 1 by lia. change (2 ^ 1) with 2.
      rewrite Hsplit. destruct Hbit; subst bit; lia.
    + rewrite shr_fexp_54 by lia.
      destruct (shr_1_pos p2 false false) as (p3 & Hm3 & Hp3); [lia|].
      change (shr_record_of_loc (Zpos p2) loc_Exact)
        with (Build_shr_record (Zpos p2) false false).
      rewrite Hm3.
      replace (e + 1 + 1 <=? 1024 - 53) with true
        by (symmetry; apply Z.leb_le; lia).
      assert (Zpos p2 = 2 ^ 53) as Hp2 by lia.
      rewrite Hp2 in Hp3. change (2 ^ 53 / 2) with (2 ^ 52) in Hp3.
      exists p3, (e + 1 + 1). split; [reflexivity|]. split; [lia|]. split; [lia|].
      replace (e + 1 + 1 - e) with 2 by lia. change (2 ^ 2) with 4.
      rewrite Hp3, Hsplit. rewrite Hp2 in Hnear. destruct Hbit; subst bit; lia.
Qed.

(** The quotient of two positive integers below 2^53, as the division
    computes it, lies within half a unit in the last place of the exact
    quotient. *)
Lemma true_divide_nearest a b :
  0 < a < 2 ^ 53 -> 0 < b < 2 ^ 53 ->
  exists m e,
    true_divide a b = S754_finite false m e /\
    2 ^ 52 <= Zpos m < 2 ^ 53 /\
    (e <= 0 -> 2 * Z.abs (Zpos m * b - a * 2 ^ (- e)) <= b).
Proof.
  intros Ha Hb. unfold true_divide.
  destruct (float_of_int_exact a Ha) as (ma & ea & -> & Hma & Hea & Hva).
  destruct (float_of_int_exact b Hb) as (mb & eb & -> & Hmb & Heb & Hvb).
  destruct (SFdiv_normal ma ea mb eb) as (q & r & Hdiv & Hq & ->); try done.
  assert (Zpos ma * 2 ^ 53 = q * Zpos mb + r /\ 0 <= r < Zpos mb) as [Heucl Hr].
  { pose proof (Z_div_mod (Zpos ma * 2 ^ 53) (Zpos mb)) as Hspec.
    rewrite Hdiv in Hspec. destruct Hspec as [Heq Hlt]; [lia|]. lia. }
  destruct (binary_round_aux_nearest q (ea - eb - 53)
              (new_location (Zpos mb) r) r (Zpos mb))
    as (m & e & -> & Hm & He & Hnear);
    [done | lia | by apply new_location_located | done |].
  exists m, e. split; [reflexivity|]. split; [done|]. intros He0.
  rewrite <- Heucl in Hnear. rewrite Hva, Hvb in Hnear.
  set (X := 2 ^ (e - (ea - eb - 53)) * 2 ^ (- eb)).
  assert (0 < X) as HX by (apply Z.mul_pos_pos; apply Z.pow_pos_nonneg; lia).
  assert (2 ^ (- ea) * 2 ^ 53 = 2 ^ (- e) * X) as Hscale.
  { unfold X. rewrite <- !Z.pow_add_r by lia. f_equal. lia. }
  apply (Z.mul_le_mono_pos_r _ _ X HX).
  rewrite <- Z.mul_assoc, <- (Z.abs_eq X) at 1 by lia.
  rewrite <- Z.abs_mul.
  replace ((Zpos m * b - a * 2 ^ (- e)) * X)
    with (Zpos m * 2 ^ (e - (ea - eb - 53)) * (b * 2 ^ (- eb))
          - a * 2 ^ (- ea) * 2 ^ 53).
  - etrans; [exact Hnear|]. unfold X. lia.
  - rewrite <- (Z.mul_assoc a), Hscale. unfold X. ring.
Qed.

Lemma SFleb_one_exponent m e :
  SFleb (S754_finite false m e) float_one = true -> e <= -52.
Proof.
  unfold SFleb, SFcompare, float_one. intros Hle.
  destruct (Z.compare_spec e (-52)) as [H | H | H]; [lia | lia | discriminate].
Qed.

(** For a numerator that does not exceed the denominator. *)
Lemma true_divide_nearest_le a b :
  0 < a <= b -> b < 2 ^ 53 ->
  exists m e,
    true_divide a b = S754_finite false m e /\
    2 ^ 52 <= Zpos m < 2 ^ 53 /\ e <= -52 /\
    2 * Z.abs (Zpos m * b - a * 2 ^ (- e)) <= b.
Proof.
  intros Ha Hb.
  destruct (true_divide_nearest a b) as (m & e & Heq & Hm & Hnear); [lia | lia |].
  pose proof (true_divide_le_one a b) as Hle. rewrite Heq in Hle.
  apply SFleb_one_exponent in Hle; [|lia | lia].
  exists m, e. split; [exact Heq|]. split; [exact Hm|]. split; [exact Hle|].
  apply Hnear. lia.
Qed.
End float_facts.

(** ** Properties of the task summary *)

Section summary_properties.
Import cli.
Local Open Scope nat_scope.

Lemma length_filter_completed (tasks : list Task.t) :
  length (filter (λ t, Task.completed t = true) tasks)
  + length (filter (λ t, Task.completed t ≠ true) tasks)
  = length tasks.
Proof.
  induction tasks as [|t tasks IH]; [done|].
  rewrite !filter_cons. destruct (decide (Task.completed t = true)).
  - rewrite decide_False by auto. simpl. lia.
  - rewrite decide_True by done. simpl. lia.
Qed.

(** C6: when the client returns [user] and [tasks], the summary
    returns, its total is the number of tasks, its completed count is
    the number of tasks whose [completed] field is true, its pending
    count is the total minus the completed count, and its completion
    rate is the completed count divided by the total, as Python's true
    division gives it (a binary64 [float]), when there is a task, and
    exactly the integer zero when there is none.  With a completed task
    and fewer than 2^53 tasks that float is a normal number [m * 2^e]
    within half a unit in the last place of the exact quotient:
    [|m * 2^e - completed / total| <= 2^(e-1)]. *)
Theorem summary_correct (api : APIClient) (user_id : string)
    (user : User.t) (tasks : list Task.t) :
  get_user api user_id = Ok user →
  get_tasks api None (Some user_id) = Ok tasks →
  ∃ r, get_user_task_summary api user_id = Ok r ∧
    cli.user r = user ∧
    total_tasks r = length tasks ∧
    completed_tasks r
    = length (filter (λ t, Task.completed t = true) tasks) ∧
    pending_tasks r = total_tasks r - completed_tasks r ∧
    completed_tasks r ≤ total_tasks r ∧
    (0 < total_tasks r →
       completion_rate r
       = PyFloat (true_divide (Z.of_nat (completed_tasks r))
                    (Z.of_nat (total_tasks r)))) ∧
    (total_tasks r = 0 → completion_rate r = PyInt 0) ∧
    (0 < completed_tasks r → (Z.of_nat (total_tasks r) < 2 ^ 53)%Z →
       ∃ m e,
         completion_rate r = PyFloat (S754_finite false m e) ∧
         (2 ^ 52 ≤ Z.pos m < 2 ^ 53)%Z ∧ (e ≤ -52)%Z ∧
         (2 * Z.abs (Z.pos m * Z.of_nat (total_tasks r)
                     - Z.of_nat (completed_tasks r) * 2 ^ (- e))
          ≤ Z.of_nat (total_tasks r))%Z).
Proof.
  intros Huser Htasks. unfold get_user_task_summary.
  rewrite Huser, Htasks. eexists. split; [reflexivity|]. simpl.
  pose proof (length_filter_completed tasks) as Hlen.
  split; [done|]. split; [done|]. split; [done|].
  split; [lia|]. split; [lia|]. split; [|split].
  - destruct tasks as [|t tasks]; [simpl; lia | done].
  - by destruct tasks.
  - intros Hdone Hsmall.
    destruct (true_divide_nearest_le
                (Z.of_nat (length (filter (λ t, Task.completed t = true) tasks)))
                (Z.of_nat (length tasks)))
      as (m & e & Heq & Hm & He & Hnear); [lia | lia |].
    exists m, e. destruct tasks as [|t tasks]; [simpl in Hdone; lia|].
    rewrite Heq. done.
Qed.

(** The four tasks of the test suite: a rate of one half. *)
Lemma summary_correct_witness :
  ∃ r,
    get_user_task_summary sample_client "user-1" = Ok r ∧
    total_tasks r = 4 ∧ completed_tasks r = 2 ∧ pending_tasks r = 2 ∧
    completion_rate r = PyFloat (S754_finite false 4503599627370496 (-53)).
Proof.
  destruct (summary_correct sample_client "user-1"
              (User.mk "user-1" "John Doe" "john@example.com" None)
              (sample_tasks [true; false; true; false]))
    as (r & Hr & _ & Htotal & Hdone & Hpending & _ & Hrate & _).
  - reflexivity.
  - reflexivity.
  - exists r. split; [exact Hr|]. split; [exact Htotal|].
    split; [exact Hdone|]. rewrite Hpending, Htotal, Hdone.
    split; [reflexivity|]. rewrite Hrate, Htotal, Hdone; [reflexivity|].
    rewrite Htotal. simpl. lia.
Defined.

(** One task of three completed: the quotient is rounded to the
    nearest binary64 value, 6004799503160661 / 2^54. *)
Example summary_one_third :
  ∃ r, get_user_task_summary
         {| get_user := λ i, Ok (User.mk i "John Doe" "" None);
            get_tasks := λ _ _, Ok (sample_tasks [true; false; false]) |}
         "user-1" = Ok r ∧
       completion_rate r
       = PyFloat (S754_finite false 6004799503160661 (-54)).
Proof. eexists. split; [reflexivity|]. vm_compute. reflexivity. Qed.

(** No task at all: the integer zero, not a division by zero. *)
Example summary_no_tasks :
  ∃ r, get_user_task_summary
         {| get_user := λ i, Ok (User.mk i "John Doe" "" None);
            get_tasks := λ _ _, Ok [] |} "user-1" = Ok r ∧
       total_tasks r = 0 ∧ completion_rate r = PyInt 0.
Proof. eexists. by repeat split. Qed.
End summary_properties.

(** ** Further facts about dictionaries *)

Section more_dict_facts.
Context {V : Type}.
Implicit Types (d : dict V) (k : string) (v : V).

Lemma dict_getitem_delitem_ne k k' d d' :
  dict_delitem k d = Some d' → k' ≠ k → dict_getitem k' d' = dict_getitem k' d.
Proof.
  revert d'. induction d as [|[k0 v0] d IH]; simpl; [done|].
  intros d'. case_decide as Hk.
  - intros [= <-] Hne. subst. by rewrite decide_False.
  - destruct (dict_delitem k d) as [d0|]; simpl; [|done].
    intros [= <-] Hne. simpl. case_decide; [done | by apply IH].
Qed.

Lemma dict_delitem_length k d d' :
  dict_delitem k d = Some d' → length d = S (length d').
Proof.
  revert d'. induction d as [|[k0 v0] d IH]; simpl; [done|].
  intros d'. case_decide as Hk.
  - by intros [= <-].
  - destruct (dict_delitem k d) as [d0|]; simpl; [|done].
    intros [= <-]. simpl. f_equal. by apply IH.
Qed.

Lemma dict_setitem_same k v d : dict_getitem k d = Some v → dict_setitem k v d = d.
Proof.
  induction d as [|[k0 v0] d IH]; simpl; [done|].
  case_decide as Hk.
  - intros [= ->]. by subst.
  - intros Hget. f_equal. by apply IH.
Qed.

Lemma dict_setitem_length_old k v d :
  k ∈ dict_keys d → length (dict_setitem k v d) = length d.
Proof.
  intros Hin. rewrite <- (length_fmap fst (dict_setitem k v d)), <- (length_fmap fst d).
  fold (dict_keys (dict_setitem k v d)). fold (dict_keys d).
  by rewrite dict_keys_setitem_old.
Qed.

(** Where an assignment to a stored key lands. *)
Lemma dict_setitem_split k v v0 d :
  dict_getitem k d = Some v0 →
  ∃ d1 d2, d = d1 ++ (k, v0) :: d2 ∧ dict_setitem k v d = d1 ++ (k, v) :: d2.
Proof.
  induction d as [|[k0 w] d IH]; simpl; [done|].
  case_decide as Hk.
  - intros [= ->]. subst. by exists [], d.
  - intros Hget. destruct (IH Hget) as (d1 & d2 & -> & ->).
    by exists ((k0, w) :: d1), d2.
Qed.

Lemma dict_values_filter (P : V → Prop) `{!∀ v, Decision (P v)} d :
  dict_values (filter (λ it, P it.2) d) = filter P (dict_values d).
Proof.
  unfold dict_values. induction d as [|[k v] d IH]; [done|].
  rewrite fmap_cons, !filter_cons. cbn [snd].
  destruct (decide (P v)); [rewrite fmap_cons|]; by rewrite IH.
Qed.

Lemma dict_wf_filter (P : string * V → Prop) `{!∀ it, Decision (P it)} d :
  dict_wf d → dict_wf (filter P d).
Proof.
  unfold dict_wf. intros Hd. eapply sublist_NoDup; [exact Hd|].
  apply fmap_sublist, sublist_filter.
Qed.

Lemma dict_getitem_filter_in (P : string * V → Prop) `{!∀ it, Decision (P it)} k v d :
  dict_wf d → dict_getitem k d = Some v → P (k, v) →
  dict_getitem k (filter P d) = Some v.
Proof.
  intros Hd Hget HP. apply dict_item_getitem; [by apply dict_wf_filter|].
  apply list_elem_of_filter. split; [done | by apply dict_getitem_item].
Qed.

Lemma dict_keys_filter_out (P : string * V → Prop) `{!∀ it, Decision (P it)} k v d :
  dict_wf d → dict_getitem k d = Some v → ¬ P (k, v) →
  k ∉ dict_keys (filter P d).
Proof.
  intros Hd Hget HP Hin. unfold dict_keys in Hin.
  apply list_elem_of_fmap in Hin as ([k' v'] & -> & Hin).
  apply list_elem_of_filter in Hin as [HP' Hin]. simpl in *.
  apply dict_item_getitem in Hin; [|done]. congruence.
Qed.

Lemma dict_values_length d : length (dict_values d) = length d.
Proof. unfold dict_values. apply length_fmap. Qed.
End more_dict_facts.

(** ** Further properties of the store *)

Section more_store_properties.
Import api store.
Implicit Types (s : State) (us : dict UserResponse.t) (ts : dict TaskResponse.t).

(** X1: [create_user] never fails.  The record it returns carries the
    fields of the body, [get_user] on the returned id gives the same
    record back, and the tasks are untouched.  When the id is new the
    listing of the users grows by this record, at its end; when the id
    is already live the listing keeps its length (the old record is
    replaced). *)
Theorem create_user_roundtrip (uuid4 : nat → string) (user : User.t) s :
  ∃ r s' before after,
    create_user uuid4 user s = (Return r, s') ∧
    UserResponse.name r = User.name user ∧
    UserResponse.email r = User.email user ∧
    UserResponse.age r = User.age user ∧
    get_user (UserResponse.id r) s' = (Return r, s') ∧
    tasks_db s' = tasks_db s ∧
    get_users s = (Return before, s) ∧
    get_users s' = (Return after, s') ∧
    (UserResponse.id r ∉ dict_keys (users_db s) → after = before ++ [r]) ∧
    (UserResponse.id r ∈ dict_keys (users_db s) →
       length after = length before).
Proof.
  do 4 eexists. split; [apply create_user_eq|].
  do 3 (split; [done|]).
  split; [apply get_user_present; simpl; apply dict_getitem_setitem_eq|].
  split; [done|]. split; [done|]. split; [done|]. simpl. split.
  - intros Hnew. rewrite dict_setitem_new by done.
    unfold dict_values. by rewrite fmap_app.
  - intros Hold. rewrite !dict_values_length.
    by apply dict_setitem_length_old.
Qed.

(** X2: when the [user_id] of the body is absent, empty or the id of a
    stored user, [create_task] returns a task with the fields of the
    body (the [completed] flag included), [get_task] on the returned id
    gives it back, the users are untouched, and, the id being new, the
    task is appended to the unfiltered listing. *)
Theorem create_task_roundtrip (uuid4 : nat → string) (task : Task.t) s :
  (∀ u, Task.user_id task = Some u →
        u = "" ∨ u ∈ dict_keys (users_db s)) →
  ∃ t s' before after,
    create_task uuid4 task s = (Return t, s') ∧
    TaskResponse.title t = Task.title task ∧
    TaskResponse.description t = Task.description task ∧
    TaskResponse.completed t = Task.completed task ∧
    TaskResponse.user_id t = Task.user_id task ∧
    get_task (TaskResponse.id t) s' = (Return t, s') ∧
    users_db s' = users_db s ∧
    get_tasks None None s = (Return before, s) ∧
    get_tasks None None s' = (Return after, s') ∧
    (TaskResponse.id t ∉ dict_keys (tasks_db s) → after = before ++ [t]).
Proof.
  intros Howner.
  assert (¬ dangling (Task.user_id task) s) as Hd.
  { intros (u & Hu & Hne & Hnin). destruct (Howner u Hu); done. }
  do 4 eexists. split; [by apply create_task_accepted|].
  do 4 (split; [done|]).
  split; [apply get_task_present; simpl; apply dict_getitem_setitem_eq|].
  split; [done|]. rewrite !get_tasks_eq. simpl.
  split; [done|]. split; [done|].
  intros Hnew. rewrite dict_setitem_new by done.
  unfold dict_values. by rewrite fmap_app.
Qed.

Lemma create_task_roundtrip_witness :
  ∃ t s',
    create_task sample.uuid4 sample.report sample.state = (Return t, s') ∧
    get_task (TaskResponse.id t) s' = (Return t, s').
Proof.
  destruct (create_task_roundtrip sample.uuid4 sample.report sample.state)
    as (t & s' & _ & _ & Hcreate & _ & _ & _ & _ & Hget & _).
  - intros u [= <-]. right. compute_done.
  - by exists t, s'.
Defined.

(** X3: the reading endpoints ([get_users], [get_user], [get_tasks],
    [get_task], [get_database_stats], the root and the health check)
    leave the state as it is, whether they return or raise. *)
Theorem reads_keep_state s :
  (get_users s).2 = s ∧
  (∀ k, (get_user k s).2 = s) ∧
  (∀ c u, (get_tasks c u s).2 = s) ∧
  (∀ k, (get_task k s).2 = s) ∧
  (get_database_stats s).2 = s ∧
  (read_root s).2 = s ∧
  (health_check s).2 = s.
Proof.
  split; [done|]. split.
  { intros k. destruct (dict_getitem k (users_db s)) as [v|] eqn:Hget.
    - by rewrite (get_user_present k v).
    - apply dict_getitem_None in Hget. by rewrite get_user_absent. }
  split; [done|]. split; [|done].
  intros k. destruct (dict_getitem k (tasks_db s)) as [v|] eqn:Hget.
  - by rewrite (get_task_present k v).
  - apply dict_getitem_None in Hget. by rewrite get_task_absent.
Qed.

(** X4: [delete_task] on a stored id returns and removes that task
    only: [get_task] on the id then fails with NotFound, every other
    task is still found, the remaining tasks keep their order, there is
    one task less, and the users are untouched.  On an id that is not
    stored it fails with NotFound and changes nothing. *)
Theorem delete_task_semantics s (task_id : string) :
  wf s →
  (task_id ∈ dict_keys (tasks_db s) →
     ∃ s', delete_task task_id s = (Return "Task deleted successfully", s') ∧
       (∃ e, get_task task_id s' = (Raise e, s') ∧ NotFound e) ∧
       (∀ k, k ≠ task_id →
             dict_getitem k (tasks_db s') = dict_getitem k (tasks_db s)) ∧
       dict_values (tasks_db s') `sublist_of` dict_values (tasks_db s) ∧
       length (tasks_db s) = S (length (tasks_db s')) ∧
       users_db s' = users_db s) ∧
  (task_id ∉ dict_keys (tasks_db s) →
     ∃ e, delete_task task_id s = (Raise e, s) ∧ NotFound e).
Proof.
  intros Hwf. split.
  - intros Hin. destruct (delete_task_present task_id s Hin)
      as (ts' & Hdel & Heq).
    eexists. split; [exact Heq|]. simpl. split.
    { eexists. split; [|].
      - apply get_task_absent. simpl.
        eapply dict_delitem_gone; [by apply wf_tasks | done].
      - exact I. }
    split; [intros k Hk; by eapply dict_getitem_delitem_ne|].
    split; [apply fmap_sublist; by eapply dict_delitem_sublist|].
    split; [by eapply dict_delitem_length | done].
  - intros Hnin. eexists. split; [by apply delete_task_absent | exact I].
Qed.

Lemma delete_task_semantics_witness :
  ∃ s', delete_task "uuid-2" sample.state
        = (Return "Task deleted successfully", s') ∧
        ∃ e, get_task "uuid-2" s' = (Raise e, s') ∧ NotFound e.
Proof.
  destruct (delete_task_semantics sample.state "uuid-2") as [Hpresent _].
  - compute_done.
  - destruct Hpresent as (s' & Hdel & Hgone & _); [compute_done|].
    by exists s'.
Defined.
(** X5: what [delete_user] removes and what it keeps.  After a
    successful [delete_user u], the unfiltered listing is the former
    listing without the tasks owned by [u], in the same order; a task
    that was owned by [u] is no longer found ([get_task] fails with
    NotFound); every other task is returned unchanged; every other user
    is still found. *)
Theorem delete_user_frame s (u : string) :
  wf s →
  u ∈ dict_keys (users_db s) →
  ∃ s' before after,
    delete_user u s = (Return "User deleted successfully", s') ∧
    get_tasks None None s = (Return before, s) ∧
    get_tasks None None s' = (Return after, s') ∧
    after = filter (λ t, TaskResponse.user_id t ≠ Some u) before ∧
    (∀ k t, dict_getitem k (tasks_db s) = Some t →
            TaskResponse.user_id t = Some u →
            ∃ e, get_task k s' = (Raise e, s') ∧ NotFound e) ∧
    (∀ k t, dict_getitem k (tasks_db s) = Some t →
            TaskResponse.user_id t ≠ Some u →
            get_task k s' = (Return t, s')) ∧
    (∀ k, k ≠ u →
          dict_getitem k (users_db s') = dict_getitem k (users_db s)).
Proof.
  intros Hwf Hin.
  destruct (delete_user_present u s (wf_tasks s Hwf) Hin)
    as (us' & Hdel & Heq).
  do 3 eexists. split; [exact Heq|]. rewrite !get_tasks_eq. simpl.
  split; [done|]. split; [done|].
  split.
  { exact (dict_values_filter (λ t, TaskResponse.user_id t ≠ Some u)
             (tasks_db s)). }
  split; [|split].
  - intros k t Hget Hown. eexists. split; [|].
    + apply get_task_absent. simpl.
      eapply (dict_keys_filter_out _ k t); [by apply wf_tasks | done|].
      simpl. by intros ?.
    + exact I.
  - intros k t Hget Hown. apply get_task_present. simpl.
    by apply dict_getitem_filter_in; [apply wf_tasks| |].
  - intros k Hk. by eapply dict_getitem_delitem_ne.
Qed.

Lemma delete_user_frame_witness :
  ∃ s', delete_user "uuid-0" sample.state
        = (Return "User deleted successfully", s') ∧
        get_tasks None None s'
        = (Return [task_data "uuid-3" sample.errand], s').
Proof.
  destruct (delete_user_frame sample.state "uuid-0")
    as (s' & before & after & Hdel & Hbefore & Hafter & Heq & _).
  - compute_done.
  - compute_done.
  - exists s'. split; [exact Hdel|]. rewrite Hafter, Heq.
    injection Hbefore as <-. reflexivity.
Defined.

(** X6: the statistics agree with the listings.  The three counts of
    [get_database_stats] are the lengths of [get_users], of the
    unfiltered [get_tasks] and of [get_tasks(completed=True)], and the
    completed and the not completed listings together account for every
    task. *)
Theorem database_stats_agree s :
  ∃ st users tasks done pending,
    get_database_stats s = (Return st, s) ∧
    get_users s = (Return users, s) ∧
    get_tasks None None s = (Return tasks, s) ∧
    get_tasks (Some true) None s = (Return done, s) ∧
    get_tasks (Some false) None s = (Return pending, s) ∧
    users_count st = length users ∧
    tasks_count st = length tasks ∧
    completed_tasks st = length done ∧
    tasks_count st = (completed_tasks st + length pending)%nat ∧
    done ++ pending ≡ₚ tasks.
Proof.
  do 5 eexists. rewrite !get_tasks_eq. simpl.
  do 5 (split; [done|]).
  split; [by rewrite dict_values_length|].
  split; [by rewrite dict_values_length|].
  split; [done|].
  assert (filter (λ t, TaskResponse.completed t = true)
            (dict_values (tasks_db s))
          ++ filter (λ t, TaskResponse.completed t = false)
               (dict_values (tasks_db s))
          ≡ₚ dict_values (tasks_db s)) as Hperm.
  { rewrite (list_filter_iff (λ t, TaskResponse.completed t = false)
               (λ t, ¬ TaskResponse.completed t = true)).
    - apply filter_app_complement.
    - intros t. by destruct (TaskResponse.completed t). }
  split; [|done].
  apply Permutation_length in Hperm.
  rewrite length_app, dict_values_length in Hperm. by symmetry.
Qed.

(** X7: in every state reached from the empty store, whatever [uuid4]
    returns, a record is stored under its own id: [get_user k] and
    [get_task k] return a record whose id is [k], and the ids listed by
    [get_users], and by [get_tasks], are pairwise distinct. *)
Theorem reachable_ids_consistent (uuid4 : nat → string)
    (rs : list request) :
  let s := run uuid4 rs init in
  (∀ k r, get_user k s = (Return r, s) → UserResponse.id r = k) ∧
  (∀ k t, get_task k s = (Return t, s) → TaskResponse.id t = k) ∧
  (∃ users, get_users s = (Return users, s) ∧
            NoDup (UserResponse.id <$> users)) ∧
  (∃ tasks, get_tasks None None s = (Return tasks, s) ∧
            NoDup (TaskResponse.id <$> tasks)).
Proof.
  intros s. assert (wf s) as Hwf by apply run_wf, wf_init.
  pose proof Hwf as (Hus & Hts & Hku & Hkt).
  split; [|split; [|split]].
  - intros k r Hget.
    destruct (dict_getitem k (users_db s)) as [v|] eqn:Hv.
    + rewrite (get_user_present k v) in Hget by done.
      injection Hget as <-. apply (wf_user_ids s); [done|].
      by apply dict_getitem_item.
    + apply dict_getitem_None in Hv. by rewrite get_user_absent in Hget.
  - intros k t Hget.
    destruct (dict_getitem k (tasks_db s)) as [v|] eqn:Hv.
    + rewrite (get_task_present k v) in Hget by done.
      injection Hget as <-. apply (wf_task_ids s); [done|].
      by apply dict_getitem_item.
    + apply dict_getitem_None in Hv. by rewrite get_task_absent in Hget.
  - eexists. split; [done|]. unfold dict_values.
    rewrite <- list_fmap_compose.
    erewrite (list_fmap_ext _ fst); [exact Hus|].
    intros i it Hit. apply list_elem_of_lookup_2 in Hit.
    unfold keyed_users in Hku. rewrite Forall_forall in Hku. by apply Hku.
  - eexists. split; [done|]. simpl. unfold dict_values.
    rewrite <- list_fmap_compose.
    erewrite (list_fmap_ext _ fst); [exact Hts|].
    intros i it Hit. apply list_elem_of_lookup_2 in Hit.
    unfold keyed_tasks in Hkt. rewrite Forall_forall in Hkt. by apply Hkt.
Qed.
(** X8: [update_task] on a stored task, with a [user_id] that is
    absent, empty or the id of a stored user, replaces title,
    description, [completed] and [user_id] by those of the body (so it
    can reopen a completed task), keeps the id, and leaves the other
    tasks, the order of the tasks and the users as they were. *)
Theorem update_task_semantics s (task_id : string) (task : Task.t) :
  wf s →
  task_id ∈ dict_keys (tasks_db s) →
  (∀ u, Task.user_id task = Some u →
        u = "" ∨ u ∈ dict_keys (users_db s)) →
  ∃ old new s',
    dict_getitem task_id (tasks_db s) = Some old ∧
    update_task task_id task s = (Return new, s') ∧
    get_task task_id s' = (Return new, s') ∧
    TaskResponse.id new = TaskResponse.id old ∧
    TaskResponse.title new = Task.title task ∧
    TaskResponse.description new = Task.description task ∧
    TaskResponse.completed new = Task.completed task ∧
    TaskResponse.user_id new = Task.user_id task ∧
    (∀ k, k ≠ task_id →
          dict_getitem k (tasks_db s') = dict_getitem k (tasks_db s)) ∧
    dict_keys (tasks_db s') = dict_keys (tasks_db s) ∧
    users_db s' = users_db s.
Proof.
  intros Hwf Hin Howner.
  assert (¬ dangling (Task.user_id task) s) as Hd.
  { intros (u & Hu & Hne & Hnin). destruct (Howner u Hu); done. }
  pose proof Hin as [old Hold]%dict_getitem_is_Some.
  exists old, (task_data task_id task). eexists.
  split; [done|]. split; [by apply update_task_accepted|].
  split; [apply get_task_present; simpl; apply dict_getitem_setitem_eq|].
  split.
  { simpl. symmetry. apply (wf_task_ids s); [done|].
    by apply dict_getitem_item. }
  do 4 (split; [done|]). simpl.
  split; [intros k Hk; by apply dict_getitem_setitem_ne|].
  split; [by apply dict_keys_setitem_old | done].
Qed.

Lemma update_task_semantics_witness :
  ∃ new s',
    update_task "uuid-2" sample.errand sample.state = (Return new, s') ∧
    TaskResponse.completed new = false ∧
    TaskResponse.id new = "uuid-2".
Proof.
  destruct (update_task_semantics sample.state "uuid-2" sample.errand)
    as (old & new & s' & Hold & Hupd & _ & Hid & _ & _ & Hdone & _).
  - compute_done.
  - compute_done.
  - by intros u [=].
  - exists new, s'. split; [exact Hupd|]. split; [exact Hdone|].
    rewrite Hid. by injection Hold as <-.
Defined.

(** X9: a task id that is not stored is reported first.  [get_task],
    [update_task], [complete_task] and [delete_task] on such an id all
    fail with NotFound and change nothing; for [update_task] this holds
    whatever the body is, also when its [user_id] names no user. *)
Theorem missing_task_not_found s (task_id : string) :
  task_id ∉ dict_keys (tasks_db s) →
  (∃ e, get_task task_id s = (Raise e, s) ∧ NotFound e) ∧
  (∀ task, ∃ e, update_task task_id task s = (Raise e, s) ∧ NotFound e) ∧
  (∃ e, complete_task task_id s = (Raise e, s) ∧ NotFound e) ∧
  (∃ e, delete_task task_id s = (Raise e, s) ∧ NotFound e).
Proof.
  intros Hnin. split; [|split; [|split]].
  - eexists. split; [by apply get_task_absent | exact I].
  - intros task. eexists. split; [by apply update_task_absent | exact I].
  - eexists. split; [by apply complete_task_absent | exact I].
  - eexists. split; [by apply delete_task_absent | exact I].
Qed.

Lemma missing_task_not_found_witness :
  ∃ e, update_task "no-such-task" sample.stray sample.state
       = (Raise e, sample.state) ∧ NotFound e.
Proof.
  destruct (missing_task_not_found sample.state "no-such-task")
    as (_ & Hupd & _).
  - compute_done.
  - apply Hupd.
Defined.

(** X10: the two collections are changed only by their own requests.
    No task request (create, update, complete, delete) changes the
    users, and neither [create_user] nor [update_user] changes the
    tasks, whether the request returns or raises. *)
Theorem requests_keep_other_collection (uuid4 : nat → string)
    (r : request) s :
  match r with
  | CreateTask _ | UpdateTask _ _ | CompleteTask _ | DeleteTask _ =>
      users_db (exec uuid4 r s) = users_db s
  | CreateUser _ | UpdateUser _ _ =>
      tasks_db (exec uuid4 r s) = tasks_db s
  | DeleteUser _ | ResetDatabase => True
  end.
Proof.
  destruct r as [user|k user|k|task|k task|k|k|]; unfold exec; try done.
  - destruct (decide (k ∈ dict_keys (users_db s))) as [Hin | Hnin].
    + by rewrite update_user_present.
    + by rewrite update_user_absent.
  - destruct (dangling_dec (Task.user_id task) s) as [Hd | Hd].
    + by rewrite create_task_rejected.
    + by rewrite create_task_accepted.
  - destruct (decide (k ∈ dict_keys (tasks_db s))) as [Hin | Hnin];
      [|by rewrite update_task_absent].
    destruct (dangling_dec (Task.user_id task) s) as [Hd | Hd].
    + by rewrite update_task_rejected.
    + by rewrite update_task_accepted.
  - destruct (dict_getitem k (tasks_db s)) as [t|] eqn:Hget.
    + by rewrite (complete_task_present k t).
    + apply dict_getitem_None in Hget. by rewrite complete_task_absent.
  - destruct (decide (k ∈ dict_keys (tasks_db s))) as [Hin | Hnin].
    + by destruct (delete_task_present k s Hin) as (ts' & Hdel & ->).
    + by rewrite delete_task_absent.
Qed.

(** X11: [reset_database] empties the store from any state: afterwards
    both listings are empty, the three statistics are zero, and every
    [get_user] and [get_task] fails with NotFound. *)
Theorem reset_database_empties s :
  ∃ s', reset_database s = (Return tt, s') ∧
    get_users s' = (Return [], s') ∧
    (∀ c u, get_tasks c u s' = (Return [], s')) ∧
    get_database_stats s' = (Return (mkStats 0 0 0), s') ∧
    (∀ k, ∃ e, get_user k s' = (Raise e, s') ∧ NotFound e) ∧
    (∀ k, ∃ e, get_task k s' = (Raise e, s') ∧ NotFound e).
Proof.
  eexists. split; [reflexivity|]. split; [done|].
  split; [by intros [c|] [u|]|]. split; [done|]. split.
  - intros k. eexists. split.
    + apply get_user_absent. apply not_elem_of_nil.
    + exact I.
  - intros k. eexists. split.
    + apply get_task_absent. apply not_elem_of_nil.
    + exact I.
Qed.

(** X12: the effect of [complete_task] on the statistics.  Completing a
    stored task that is not completed raises the completed count by
    exactly one and keeps the two other counts; completing a task that
    is already completed leaves the whole state as it is. *)
Theorem complete_task_stats s (task_id : string) (t : TaskResponse.t) :
  dict_getitem task_id (tasks_db s) = Some t →
  ∃ s' st st',
    (complete_task task_id s).2 = s' ∧
    get_database_stats s = (Return st, s) ∧
    get_database_stats s' = (Return st', s') ∧
    users_count st' = users_count st ∧
    tasks_count st' = tasks_count st ∧
    (TaskResponse.completed t = false →
       completed_tasks st' = S (completed_tasks st)) ∧
    (TaskResponse.completed t = true → s' = s).
Proof.
  intros Hget. rewrite (complete_task_present task_id t) by done.
  do 3 eexists. split; [done|]. split; [done|]. split; [done|]. simpl.
  split; [done|]. split.
  { apply dict_setitem_length_old, dict_getitem_is_Some. by eexists. }
  split.
  - intros Hopen.
    destruct (dict_setitem_split task_id (mark_completed t) t (tasks_db s) Hget)
      as (d1 & d2 & -> & ->).
    unfold dict_values. rewrite !fmap_app, !fmap_cons, !filter_app,
      !filter_cons, !length_app. simpl.
    rewrite decide_False by congruence. lia.
  - intros Hdone. destruct s as [us ts n]. simpl in *. f_equal.
    apply dict_setitem_same. rewrite Hget. f_equal.
    destruct t. simpl in *. by subst.
Qed.

Lemma complete_task_stats_witness :
  ∃ st st',
    get_database_stats sample.state = (Return st, sample.state) ∧
    (get_database_stats (complete_task "uuid-1" sample.state).2).1
    = Return st' ∧
    completed_tasks st = 1%nat ∧ completed_tasks st' = 2%nat.
Proof.
  destruct (complete_task_stats sample.state "uuid-1"
              (task_data "uuid-1" sample.report))
    as (s' & st & st' & Hs' & Hst & Hst' & _ & _ & Hinc & _).
  - reflexivity.
  - exists st, st'. split; [exact Hst|]. rewrite Hs', Hst'.
    split; [reflexivity|]. rewrite Hinc by reflexivity.
    injection Hst as <-. by split.
Defined.
(** Keys are never removed by a create call. *)
Lemma run_creates_keys_mono (uuid4 : nat → string)
    (calls : list create_call) s k :
  (k ∈ dict_keys (users_db s) →
   k ∈ dict_keys (users_db (run_creates uuid4 calls s).2)) ∧
  (k ∈ dict_keys (tasks_db s) →
   k ∈ dict_keys (tasks_db (run_creates uuid4 calls s).2)).
Proof.
  revert s. induction calls as [|call calls IH]; intros s; [done|].
  destruct call as [user | task]; cbn [run_creates].
  - rewrite create_user_eq.
    match goal with |- context [run_creates uuid4 calls ?s1] =>
      destruct (IH s1) as [Hu Ht];
      destruct (run_creates uuid4 calls s1) as [trace s''] end.
    simpl in *. split; [|done].
    intros Hk. apply Hu, dict_keys_setitem. by right.
  - destruct (dangling_dec (Task.user_id task) s) as [Hd | Hd].
    + rewrite create_task_rejected by done. apply IH.
    + rewrite create_task_accepted by done.
      match goal with |- context [run_creates uuid4 calls ?s1] =>
        destruct (IH s1) as [Hu Ht];
        destruct (run_creates uuid4 calls s1) as [trace s''] end.
      simpl in *. split; [done|].
      intros Hk. apply Ht, dict_keys_setitem. by right.
Qed.

(** X20: where the ids of created records come from.  For every
    sequence of [create_user] and [create_task] calls from any state,
    the ids handed back are, in order, the successive values of
    [uuid4]: one value is drawn for each call that returns and none for
    a [create_task] that is rejected, no value is changed or skipped,
    and every id handed back is a key of a collection afterwards. *)
Theorem create_ids_are_draws (uuid4 : nat → string)
    (calls : list create_call) s :
  ∃ trace s',
    run_creates uuid4 calls s = (trace, s') ∧
    trace.*1 = uuid4 <$> seq (uuid_calls s) (length trace) ∧
    uuid_calls s' = (uuid_calls s + length trace)%nat ∧
    (length trace ≤ length calls)%nat ∧
    Forall (λ e, e.1 ∈ dict_keys (users_db s') ∨
                 e.1 ∈ dict_keys (tasks_db s')) trace.
Proof.
  revert s. induction calls as [|call calls IH]; intros s.
  { exists [], s. simpl. repeat split; [lia | lia | constructor]. }
  destruct call as [user | task]; cbn [run_creates].
  - rewrite create_user_eq.
    match goal with |- context [run_creates uuid4 calls ?s1] =>
      destruct (IH s1) as (trace & s' & Hrun & Hids & Hcalls & Hlen & Hkeys);
      pose proof (run_creates_keys_mono uuid4 calls s1
                    (uuid4 (uuid_calls s))) as [Hmono _] end.
    rewrite Hrun in *. simpl in *. do 2 eexists. split; [done|]. simpl.
    split; [f_equal; exact Hids|]. split; [lia|]. split; [lia|].
    constructor; [|done]. left. apply Hmono, dict_keys_setitem. by left.
  - destruct (dangling_dec (Task.user_id task) s) as [Hd | Hd].
    + rewrite create_task_rejected by done.
      destruct (IH s) as (trace & s' & Hrun & Hids & Hcalls & Hlen & Hkeys).
      exists trace, s'. simpl. repeat split; try done. lia.
    + rewrite create_task_accepted by done.
      match goal with |- context [run_creates uuid4 calls ?s1] =>
        destruct (IH s1) as (trace & s' & Hrun & Hids & Hcalls & Hlen & Hkeys);
        pose proof (run_creates_keys_mono uuid4 calls s1
                      (uuid4 (uuid_calls s))) as [_ Hmono] end.
      rewrite Hrun in *. simpl in *. do 2 eexists. split; [done|]. simpl.
      split; [f_equal; exact Hids|]. split; [lia|]. split; [lia|].
      constructor; [|done]. right. apply Hmono, dict_keys_setitem. by left.
Qed.
End more_store_properties.

(** ** Facts about patterns and stripping *)

Section regex_facts.
Import cli.

Lemma lang_nil_nullable r : lang r [] → nullable r = true.
Proof.
  intros H. remember [] as s eqn:Hs. induction H; simpl; try done.
  - apply app_eq_nil in Hs as [-> ->]. by rewrite IHlang1, IHlang2.
  - by rewrite IHlang.
  - rewrite IHlang by done. apply orb_true_r.
Qed.

Lemma nullable_lang_nil r : nullable r = true → lang r [].
Proof.
  induction r as [| |p|r1 IH1 r2 IH2|r1 IH1 r2 IH2|r IH]; simpl; try done.
  - intros _. constructor.
  - intros [H1 H2]%andb_true_iff. apply (lang_cat r1 r2 [] []); auto.
  - intros [H|H]%orb_true_iff; [apply lang_alt_l | apply lang_alt_r]; auto.
  - intros _. constructor.
Qed.

Lemma deriv_lang_1 c r s : lang (deriv c r) s → lang r (c :: s).
Proof.
  revert s. induction r as [| |p|r1 IH1 r2 IH2|r1 IH1 r2 IH2|r IH];
    intros s; simpl.
  - inversion 1.
  - inversion 1.
  - destruct (p c) eqn:Hp; inversion 1; subst. by constructor.
  - destruct (nullable r1) eqn:Hn.
    + inversion 1 as [| | | ? ? ? Hl | ? ? ? Hr | |]; subst.
      * inversion Hl as [| |? ? s1 s2 H1 H2| | | |]; subst.
        apply (lang_cat r1 r2 (c :: s1) s2); auto.
      * apply (lang_cat r1 r2 [] (c :: s)); [by apply nullable_lang_nil | auto].
    + inversion 1 as [| |? ? s1 s2 H1 H2| | | |]; subst.
      apply (lang_cat r1 r2 (c :: s1) s2); auto.
  - inversion 1; subst; [apply lang_alt_l | apply lang_alt_r]; auto.
  - inversion 1 as [| |? ? s1 s2 H1 H2| | | |]; subst.
    apply (lang_star_cons r (c :: s1) s2); auto.
Qed.

Lemma deriv_lang_2 c r s' :
  lang r s' → ∀ s, s' = c :: s → lang (deriv c r) s.
Proof.
  induction 1 as [|p c' Hp|r1 r2 s1 s2 H1 IH1 H2 IH2|r1 r2 s0 H0 IH0
                  |r1 r2 s0 H0 IH0| |r s1 s2 H1 IH1 H2 IH2];
    intros s Hs; simpl; try done.
  - injection Hs as -> <-. rewrite Hp. constructor.
  - destruct s1 as [|c1 s1]; simpl in Hs.
    + rewrite (lang_nil_nullable r1 H1). apply lang_alt_r. by apply IH2.
    + injection Hs as -> <-.
      assert (lang (Cat (deriv c r1) r2) (s1 ++ s2)) as Hcat.
      { constructor; [by apply IH1 | done]. }
      destruct (nullable r1); [by apply lang_alt_l | done].
  - apply lang_alt_l. by apply IH0.
  - apply lang_alt_r. by apply IH0.
  - destruct s1 as [|c1 s1]; simpl in Hs.
    + by apply IH2.
    + injection Hs as -> <-. constructor; [by apply IH1 | done].
Qed.

(** The matcher decides the language of the pattern. *)
Lemma fullmatch_lang r s : fullmatch r s = true ↔ lang r s.
Proof.
  revert r. induction s as [|c s IH]; intros r; simpl.
  - split; [apply nullable_lang_nil | apply lang_nil_nullable].
  - rewrite IH. split; [apply deriv_lang_1|].
    intros H. by eapply deriv_lang_2.
Qed.

Lemma lang_cat_iff r1 r2 s :
  lang (Cat r1 r2) s ↔ ∃ s1 s2, s = s1 ++ s2 ∧ lang r1 s1 ∧ lang r2 s2.
Proof.
  split.
  - inversion 1; subst. eauto.
  - intros (s1 & s2 & -> & H1 & H2). by constructor.
Qed.

Lemma lang_class_iff p s : lang (Class p) s ↔ ∃ c, s = [c] ∧ p c = true.
Proof.
  split.
  - inversion 1; subst. eauto.
  - intros (c & -> & Hp). by constructor.
Qed.

Lemma lang_star_class p s :
  lang (Star (Class p)) s ↔ Forall (λ c, p c = true) s.
Proof.
  split.
  - intros H. remember (Star (Class p)) as r eqn:Hr.
    induction H as [| | | | | |r' s1 s2 H1 _ H2 IH2]; try done.
    injection Hr as ->.
    apply lang_class_iff in H1 as (c & -> & Hp). simpl.
    constructor; [done | by apply IH2].
  - induction 1 as [|c s Hp _ IH]; [constructor|].
    apply (lang_star_cons (Class p) [c] s); [by constructor | done].
Qed.

Lemma lang_plus_class p s :
  lang (Plus (Class p)) s ↔ s ≠ [] ∧ Forall (λ c, p c = true) s.
Proof.
  unfold Plus. rewrite lang_cat_iff. split.
  - intros (s1 & s2 & -> & (c & -> & Hp)%lang_class_iff & H2%lang_star_class).
    split; [done | by constructor].
  - intros [Hne Hall]. destruct Hall as [|c s Hp Hall]; [done|].
    exists [c], s. split; [done|].
    split; [by constructor | by apply lang_star_class].
Qed.

Lemma lang_two_class p s :
  lang (TwoOrMore (Class p)) s ↔
  (2 ≤ length s)%nat ∧ Forall (λ c, p c = true) s.
Proof.
  unfold TwoOrMore. rewrite lang_cat_iff. split.
  - intros (s1 & s2 & -> & (c & -> & Hp)%lang_class_iff
            & (Hne & Hall)%(lang_plus_class p)).
    split; [|by constructor]. destruct s2; [done | simpl; lia].
  - intros [Hlen Hall]. destruct Hall as [|c s Hp Hall]; [simpl in Hlen; lia|].
    exists [c], s. split; [done|]. split; [by constructor|].
    apply (lang_plus_class p). split; [|done].
    intros ->. simpl in Hlen. lia.
Qed.

Lemma lang_dollar s : lang Dollar s ↔ s = [] ∨ s = [10%N].
Proof.
  unfold Dollar. split.
  - inversion 1 as [| | |? ? ? Hl|? ? ? Hr| |]; subst.
    + inversion Hl. by left.
    + apply lang_class_iff in Hr as (c & -> & Hc%N.eqb_eq). subst. by right.
  - intros [-> | ->]; [apply lang_alt_l; constructor|].
    apply lang_alt_r. by constructor.
Qed.
End regex_facts.

Section strip_facts.
Import cli.
Implicit Types (p : N → bool) (s : text).

Lemma lstrip_by_split p s :
  ∃ ws, s = ws ++ lstrip_by p s ∧ Forall (λ c, p c = true) ws.
Proof.
  induction s as [|c s (ws & Hs & Hws)]; simpl.
  - by exists [].
  - destruct (p c) eqn:Hp.
    + exists (c :: ws). split; [simpl; by f_equal | by constructor].
    + by exists [].
Qed.

Lemma lstrip_by_head p s c : head (lstrip_by p s) = Some c → p c = false.
Proof.
  induction s as [|c' s IH]; simpl; [done|].
  destruct (p c') eqn:Hp; [done|]. simpl. by intros [= <-].
Qed.

Lemma lstrip_by_nil p s :
  lstrip_by p s = [] ↔ Forall (λ c, p c = true) s.
Proof.
  induction s as [|c s IH]; simpl.
  - split; [constructor | done].
  - destruct (p c) eqn:Hp.
    + rewrite IH. split; [by constructor | by inversion 1].
    + split; [done | inversion 1; congruence].
Qed.

Lemma lstrip_by_id p s :
  (∀ c, head s = Some c → p c = false) → lstrip_by p s = s.
Proof.
  destruct s as [|c s]; simpl; [done|]. intros H. by rewrite H.
Qed.

Lemma rstrip_by_split p s :
  ∃ ws, s = rstrip_by p s ++ ws ∧ Forall (λ c, p c = true) ws.
Proof.
  unfold rstrip_by. destruct (lstrip_by_split p (reverse s)) as (ws & Hs & Hws).
  exists (reverse ws). split; [|by apply Forall_reverse].
  rewrite <- reverse_app, <- Hs. by rewrite reverse_involutive.
Qed.

Lemma rstrip_by_last p s c : last (rstrip_by p s) = Some c → p c = false.
Proof.
  unfold rstrip_by. rewrite last_reverse. apply lstrip_by_head.
Qed.

Lemma rstrip_by_nil p s :
  rstrip_by p s = [] ↔ Forall (λ c, p c = true) s.
Proof.
  unfold rstrip_by. rewrite <- (Forall_reverse _ s), <- lstrip_by_nil.
  split; [|by intros ->].
  intros H. apply (f_equal reverse) in H.
  by rewrite reverse_involutive in H.
Qed.

Lemma rstrip_by_id p s :
  (∀ c, last s = Some c → p c = false) → rstrip_by p s = s.
Proof.
  intros H. unfold rstrip_by. rewrite lstrip_by_id.
  - apply reverse_involutive.
  - intros c Hc. apply H. by rewrite <- head_reverse.
Qed.

Lemma rstrip_by_head p s c :
  head (lstrip_by p s) = Some c →
  rstrip_by p (lstrip_by p s) ≠ [] →
  head (rstrip_by p (lstrip_by p s)) = Some c.
Proof.
  intros Hhd Hne.
  destruct (rstrip_by_split p (lstrip_by p s)) as (ws & Hs & _).
  rewrite Hs in Hhd.
  destruct (rstrip_by p (lstrip_by p s)) as [|c' t]; [done|].
  simpl in *. done.
Qed.
End strip_facts.

(** ** Properties of the validation helpers of the client *)

Section validation_properties.
Import cli.
Implicit Types (s name email : text).

Lemma accepted_email_parts email :
  validate_email email = true →
  ∃ local domain tld nl,
    email = local ++ [64%N] ++ domain ++ [46%N] ++ tld ++ nl ∧
    email_shape local domain tld nl.
Proof.
  unfold validate_email, email_pattern, email_shape.
  rewrite fullmatch_lang.
  intros (local & s1 & -> & [Hl1 Hl2]%lang_plus_class & H1)%lang_cat_iff.
  apply lang_cat_iff in H1
    as (at_ & s2 & -> & (c & -> & ->%N.eqb_eq)%lang_class_iff & H2).
  apply lang_cat_iff in H2
    as (domain & s3 & -> & [Hd1 Hd2]%lang_plus_class & H3).
  apply lang_cat_iff in H3
    as (dot & s4 & -> & (c & -> & ->%N.eqb_eq)%lang_class_iff & H4).
  apply lang_cat_iff in H4
    as (tld & nl & -> & [Ht1 Ht2]%lang_two_class & Hnl%lang_dollar).
  by exists local, domain, tld, nl.
Qed.

Lemma email_parts_accepted local domain tld nl :
  email_shape local domain tld nl →
  validate_email (local ++ [64%N] ++ domain ++ [46%N] ++ tld ++ nl) = true.
Proof.
  unfold validate_email, email_pattern, email_shape.
  rewrite fullmatch_lang.
  intros (Hl1 & Hl2 & Hd1 & Hd2 & Ht1 & Ht2 & Hnl).
  constructor; [by apply lang_plus_class|].
  constructor; [by constructor|].
  constructor; [by apply lang_plus_class|].
  constructor; [by constructor|].
  constructor; [by apply lang_two_class | by apply lang_dollar].
Qed.

(** X13: [validate_email] accepts exactly the texts made of a
    non-empty local part of letters, digits and [._%+-], an [@], a
    non-empty domain of letters, digits, dots and hyphens, a dot, at
    least two letters, and then nothing or one final newline. *)
Theorem validate_email_shape email :
  validate_email email = true ↔
  ∃ local domain tld nl,
    email = local ++ [64%N] ++ domain ++ [46%N] ++ tld ++ nl ∧
    email_shape local domain tld nl.
Proof.
  split.
  - apply accepted_email_parts.
  - intros (local & domain & tld & nl & -> & Hshape).
    by apply email_parts_accepted.
Qed.

(** X14: a final newline does not matter to [validate_email]: a text
    followed by a newline is accepted exactly when the text itself is
    accepted and does not already end in a newline. *)
Theorem validate_email_trailing_newline email :
  validate_email (email ++ [10%N]) = true ↔
  validate_email email = true ∧ last email ≠ Some 10%N.
Proof.
  split.
  - intros (local & domain & tld & nl & Heq
            & Hl1 & Hl2 & Hd1 & Hd2 & Ht1 & Ht2 & [-> | ->])%accepted_email_parts.
    + exfalso. rewrite app_nil_r in Heq.
      destruct tld as [|c tld _] using rev_ind; [simpl in Ht1; lia|].
      rewrite !app_assoc in Heq. apply app_inj_tail in Heq as [_ <-].
      apply Forall_app in Ht2 as [_ Hc]. by inversion Hc.
    + rewrite !app_assoc in Heq. apply app_inj_tail in Heq as [-> _].
      split.
      * rewrite <- !app_assoc, <- (app_nil_r tld).
        apply email_parts_accepted. repeat split; auto.
      * destruct tld as [|c tld _] using rev_ind; [simpl in Ht1; lia|].
        rewrite !app_assoc, last_snoc. intros [= ->].
        apply Forall_app in Ht2 as [_ Hc]. by inversion Hc.
  - intros [(local & domain & tld & nl & ->
             & Hl1 & Hl2 & Hd1 & Hd2 & Ht1 & Ht2 & [-> | ->])%accepted_email_parts
            Hlast].
    + rewrite app_nil_r, <- !app_assoc.
      apply email_parts_accepted. repeat split; auto.
    + exfalso. apply Hlast. by rewrite !app_assoc, last_snoc.
Qed.

(** Turn a test on a code point into the comparisons it stands for. *)
Ltac class_facts H :=
  repeat first
    [ rewrite orb_true_iff in H | rewrite andb_true_iff in H
    | rewrite N.leb_le in H | rewrite N.eqb_eq in H ].

Lemma count_at_none (p : N → bool) s :
  p 64%N = false →
  Forall (λ c, p c = true) s → filter (λ c, c = 64%N) s = [].
Proof.
  intros Hp. induction 1 as [|c s Hc _ IH]; [done|].
  rewrite filter_cons, decide_False; [done | congruence].
Qed.

(** X15: an accepted email contains exactly one [@], and no whitespace
    except possibly the one final newline. *)
Theorem validate_email_content email :
  validate_email email = true →
  length (filter (λ c, c = 64%N) email) = 1%nat ∧
  ∃ body nl,
    email = body ++ nl ∧ (nl = [] ∨ nl = [10%N]) ∧
    Forall (λ c, isspace c = false) body.
Proof.
  intros (local & domain & tld & nl & ->
          & Hl1 & Hl2 & Hd1 & Hd2 & Ht1 & Ht2 & Hnl)%accepted_email_parts.
  assert (∀ p : N → bool,
    (∀ c, p c = true → isspace c = false) → ∀ s,
    Forall (λ c, p c = true) s → Forall (λ c, isspace c = false) s) as Hsp.
  { intros p Hp s H. eapply Forall_impl; [exact H | exact Hp]. }
  assert (∀ c, local_char c = true → isspace c = false) as Hlocal.
  { intros c. unfold local_char, letter, lower, upper, digit, isspace.
    intros H. apply not_true_iff_false. intros H'.
    class_facts H. class_facts H'. lia. }
  assert (∀ c, domain_char c = true → isspace c = false) as Hdomain.
  { intros c. unfold domain_char, letter, lower, upper, digit, isspace.
    intros H. apply not_true_iff_false. intros H'.
    class_facts H. class_facts H'. lia. }
  assert (∀ c, letter c = true → isspace c = false) as Hletter.
  { intros c. unfold letter, lower, upper, isspace.
    intros H. apply not_true_iff_false. intros H'.
    class_facts H. class_facts H'. lia. }
  split.
  - rewrite !filter_app.
    rewrite (count_at_none local_char local),
      (count_at_none domain_char domain), (count_at_none letter tld)
      by done.
    destruct Hnl as [-> | ->]; done.
  - exists (local ++ [64%N] ++ domain ++ [46%N] ++ tld), nl.
    split; [by rewrite <- !app_assoc|]. split; [done|].
    rewrite !Forall_app. repeat split; eauto; by repeat constructor.
Qed.

Lemma validate_email_content_witness :
  length (filter (λ c, c = 64%N) (str "user.name+tag@domain.co.uk")) = 1%nat.
Proof.
  apply (validate_email_content (str "user.name+tag@domain.co.uk")).
  reflexivity.
Defined.

(** Stripping, as [create_user_with_validation] uses it. *)

Lemma strip_nil name : strip name = [] ↔ Forall (λ c, isspace c = true) name.
Proof.
  unfold strip. rewrite rstrip_by_nil. split.
  - intros Hall. destruct (lstrip_by_split isspace name) as (ws & Hs & Hws).
    rewrite Hs. by apply Forall_app.
  - intros Hall. apply lstrip_by_nil in Hall. rewrite Hall. constructor.
Qed.

Lemma strip_head name c : head (strip name) = Some c → isspace c = false.
Proof.
  unfold strip. intros Hhd.
  destruct (lstrip_by isspace name) as [|c' t] eqn:Hl.
  { by rewrite (proj2 (rstrip_by_nil isspace [])) in Hhd by constructor. }
  assert (rstrip_by isspace (c' :: t) ≠ []) as Hne.
  { intros Hnil. by rewrite Hnil in Hhd. }
  rewrite <- Hl in Hne, Hhd.
  rewrite (rstrip_by_head isspace name c') in Hhd; [|by rewrite Hl | done].
  injection Hhd as <-. apply (lstrip_by_head isspace name). by rewrite Hl.
Qed.

Lemma strip_last name c : last (strip name) = Some c → isspace c = false.
Proof. apply rstrip_by_last. Qed.

Lemma strip_split name :
  ∃ l r, name = l ++ strip name ++ r ∧
         Forall (λ c, isspace c = true) l ∧ Forall (λ c, isspace c = true) r.
Proof.
  destruct (lstrip_by_split isspace name) as (l & Hl & Hws).
  destruct (rstrip_by_split isspace (lstrip_by isspace name)) as (r & Hr & Hwr).
  exists l, r. unfold strip. by rewrite <- Hr.
Qed.

Lemma strip_idem name : strip (strip name) = strip name.
Proof.
  unfold strip at 1. rewrite lstrip_by_id by apply strip_head.
  apply rstrip_by_id, strip_last.
Qed.

(** X16: whenever [create_user_with_validation] reaches the remote
    call, the name it sends is the given name without the whitespace
    around it: it is not empty, neither starts nor ends with whitespace,
    and stripping it again changes nothing.  The email is sent as given
    and has passed [validate_email]; the age, when given, lies between 0
    and 150. *)
Theorem validated_call_arguments
    (api_create_user : text → text → option Z → response User.t)
    name email (age : option Z) (r : response User.t) :
  create_user_with_validation api_create_user name email age = Called r →
  ∃ sent l ws,
    r = api_create_user sent email age ∧
    name = l ++ sent ++ ws ∧
    Forall (λ c, isspace c = true) l ∧
    Forall (λ c, isspace c = true) ws ∧
    sent ≠ [] ∧
    (∀ c, head sent = Some c → isspace c = false) ∧
    (∀ c, last sent = Some c → isspace c = false) ∧
    strip sent = sent ∧
    validate_email email = true ∧
    (∀ a, age = Some a → 0 ≤ a ≤ 150).
Proof.
  unfold create_user_with_validation. case_bool_decide as Hname; [done|].
  destruct (validate_email email) eqn:Hemail; simpl; [|done].
  destruct (strip_split name) as (l & ws & Hsplit & Hl & Hws).
  assert (∀ a, age = Some a → validate_age a = true → 0 ≤ a ≤ 150) as Hage.
  { intros a _. unfold validate_age.
    rewrite andb_true_iff, !Z.leb_le. lia. }
  destruct age as [a|]; simpl.
  - destruct (validate_age a) eqn:Ha; simpl; [|done].
    intros [= <-]. exists (strip name), l, ws.
    do 5 (split; [done|]). split; [apply strip_head|].
    split; [apply strip_last|]. split; [apply strip_idem|].
    split; [done|]. intros a' [= <-]. by apply (Hage a).
  - intros [= <-]. exists (strip name), l, ws.
    do 5 (split; [done|]). split; [apply strip_head|].
    split; [apply strip_last|]. split; [apply strip_idem|]. done.
Qed.

Lemma validated_call_arguments_witness :
  ∃ sent l ws,
    str "  John Doe " = l ++ sent ++ ws ∧ sent ≠ [] ∧ strip sent = sent.
Proof.
  destruct (validated_call_arguments
              (λ n e a, Ok (User.mk "user-1" "John Doe" "john@example.com" a))
              (str "  John Doe ") (str "john@example.com") (Some 30)
              (Ok (User.mk "user-1" "John Doe" "john@example.com" (Some 30))))
    as (sent & l & ws & _ & Hsplit & _ & _ & Hne & _ & _ & Hidem & _).
  - reflexivity.
  - by exists sent, l, ws.
Defined.

(** X17: which [ValueError] is raised, and when.  The name is checked
    first, then the email, then the age: "Name cannot be empty" exactly
    when the name consists of whitespace only (the empty name included);
    otherwise "Invalid email format" exactly when [validate_email]
    rejects the email; otherwise "Age must be between 0 and 150" exactly
    when an age is given and lies outside that range.  No other message
    is raised, and without a [ValueError] the result is that of the
    remote call. *)
Theorem validation_errors
    (api_create_user : text → text → option Z → response User.t)
    name email (age : option Z) :
  let result := create_user_with_validation api_create_user name email age in
  let blank := Forall (λ c, isspace c = true) name in
  let bad_age := ∃ a, age = Some a ∧ (a < 0 ∨ 150 < a) in
  (result = ValueError "Name cannot be empty" ↔ blank) ∧
  (result = ValueError "Invalid email format" ↔
     ¬ blank ∧ validate_email email = false) ∧
  (result = ValueError "Age must be between 0 and 150" ↔
     ¬ blank ∧ validate_email email = true ∧ bad_age) ∧
  (result = Called (api_create_user (strip name) email age) ↔
     ¬ blank ∧ validate_email email = true ∧ ¬ bad_age).
Proof.
  intros result blank bad_age. subst result blank bad_age.
  unfold create_user_with_validation. rewrite <- strip_nil.
  assert (∀ a, validate_age a = false ↔ a < 0 ∨ 150 < a) as Hage.
  { intros a. unfold validate_age.
    rewrite andb_false_iff, !Z.leb_gt. lia. }
  case_bool_decide as Hname.
  { repeat split; try done; intuition (discriminate || congruence). }
  destruct (validate_email email) eqn:Hemail; simpl.
  2: { repeat split; try done; intuition (discriminate || congruence). }
  destruct age as [a|]; simpl.
  - destruct (validate_age a) eqn:Ha; simpl.
    + repeat split; try done; try (intuition (discriminate || congruence)).
      * intros (_ & _ & a' & [= <-] & Hbad). apply Hage in Hbad. congruence.
      * intros (a' & [= <-] & Hbad). apply Hage in Hbad. congruence.
    + repeat split; try done; try (intuition (discriminate || congruence)).
      * exists a. split; [done | by apply Hage].
      * intros (_ & _ & Hgood). exfalso. apply Hgood.
        exists a. split; [done | by apply Hage].
  - repeat split; try done; try (intuition (discriminate || congruence)).
    + by intros (_ & _ & a & [=] & _).
    + by intros (a & [=] & _).
Qed.
(** X18: [APIClient.__init__] keeps the base URL without its trailing
    slashes: what it drops is a run of [/] at the end, what it keeps
    does not end in [/], and a URL that does not end in [/] is kept as
    it is. *)
Theorem init_base_url_no_trailing_slash (base_url : text) :
  (∃ n, base_url = init_base_url base_url ++ replicate n 47%N) ∧
  last (init_base_url base_url) ≠ Some 47%N ∧
  (last base_url ≠ Some 47%N → init_base_url base_url = base_url).
Proof.
  unfold init_base_url. split; [|split].
  - destruct (rstrip_by_split (λ c, c =? 47)%N base_url) as (ws & Hs & Hws).
    exists (length ws). rewrite Hs at 1. f_equal.
    clear Hs. induction Hws as [|c ws Hc%N.eqb_eq _ IH]; [done|].
    simpl. by f_equal.
  - intros Hlast. by apply rstrip_by_last in Hlast.
  - intros Hlast. apply rstrip_by_id. intros c Hc.
    apply N.eqb_neq. intros ->. done.
Qed.
End validation_properties.

(** ** Further properties of the task summary *)

Section more_summary_properties.
Import cli.

Lemma length_filter_all {A} (P : A → Prop) `{!∀ x, Decision (P x)}
    (l : list A) :
  length (filter P l) = length l ↔ Forall P l.
Proof.
  induction l as [|x l IH]; [by split; [constructor|]|].
  rewrite filter_cons. destruct (decide (P x)) as [HP | HP]; simpl.
  - rewrite Forall_cons. split.
    + intros [= Hlen]. split; [done | by apply IH].
    + intros [_ Hl]. f_equal. by apply IH.
  - pose proof (length_filter P l). split; [lia|].
    by intros [? _]%Forall_cons.
Qed.

Lemma length_filter_none {A} (P : A → Prop) `{!∀ x, Decision (P x)}
    (l : list A) :
  length (filter P l) = 0%nat ↔ Forall (λ x, ¬ P x) l.
Proof.
  induction l as [|x l IH]; [by split; [constructor|]|].
  rewrite filter_cons. destruct (decide (P x)) as [HP | HP]; simpl.
  - split; [done | by intros [? _]%Forall_cons].
  - rewrite Forall_cons. rewrite IH. tauto.
Qed.

(** X19: the completion rate of a user with at least one task (and
    fewer than 2^53 of them) is a binary64 number between 0.0 and 1.0:
    it is never NaN, infinite or negative; it is 1.0 exactly when every
    task is completed and 0.0 exactly when none is. *)
Theorem summary_rate_bounds (api : APIClient) (user_id : string)
    (user : User.t) (tasks : list Task.t) :
  get_user api user_id = Ok user →
  get_tasks api None (Some user_id) = Ok tasks →
  tasks ≠ [] →
  Z.of_nat (length tasks) < 2 ^ 53 →
  ∃ r x, get_user_task_summary api user_id = Ok r ∧
    completion_rate r = PyFloat x ∧
    (x = float_zero ∨ ∃ m e, x = S754_finite false m e) ∧
    SFleb float_zero x = true ∧
    SFleb x float_one = true ∧
    (x = float_one ↔ Forall (λ t, Task.completed t = true) tasks) ∧
    (x = float_zero ↔ Forall (λ t, Task.completed t ≠ true) tasks).
Proof.
  intros Huser Htasks Hne Hsize. unfold get_user_task_summary.
  rewrite Huser, Htasks. destruct tasks as [|t tasks]; [done|].
  do 2 eexists. split; [reflexivity|]. split; [reflexivity|].
  set (done := filter (λ t, Task.completed t = true) (t :: tasks)).
  pose proof (length_filter (λ t, Task.completed t = true) (t :: tasks))
    as Hle. fold done in Hle.
  pose proof (length_filter_all (λ t, Task.completed t = true) (t :: tasks))
    as Hall. fold done in Hall.
  pose proof (length_filter_none (λ t, Task.completed t = true) (t :: tasks))
    as Hnone. fold done in Hnone.
  rewrite <- Hall, <- Hnone.
  set (n := length (t :: tasks)) in *.
  assert (0 < n)%nat as Hn by (subst n; simpl; lia).
  set (a := Z.of_nat (length done)). set (b := Z.of_nat n) in *.
  assert (0 ≤ a ≤ b) as Hab by lia.
  assert (0 < b) as Hb by lia.
  assert (length done = n ↔ a = b) as -> by lia.
  assert (length done = 0%nat ↔ a = 0) as -> by lia.
  clearbody a b. clear Hle Hall Hnone Hn.
  destruct (Z.eq_dec a 0) as [-> | Ha0].
  { rewrite true_divide_zero by lia. split; [by left|].
    split; [done|]. split; [done|]. split; [|done].
    split; [done | lia]. }
  destruct (true_divide_pos a b) as (m & e & Hx); [lia | lia |].
  split; [right; rewrite Hx; by exists m, e|].
  split; [by rewrite Hx|].
  split; [apply true_divide_le_one; lia|].
  split.
  - split.
    + intros Hone. destruct (Z.eq_dec a b) as [? | Hneq]; [done|].
      destruct (true_divide_lt_one a b) as (m' & e' & Hx' & He');
        [lia | lia |].
      rewrite Hx' in Hone. injection Hone as _ He''. lia.
    + intros ->. apply true_divide_same. lia.
  - rewrite Hx. split; [done | lia].
Qed.

Lemma summary_rate_bounds_witness :
  ∃ r x, get_user_task_summary sample_client "user-1" = Ok r ∧
         completion_rate r = PyFloat x ∧
         SFleb float_zero x = true ∧ SFleb x float_one = true.
Proof.
  destruct (summary_rate_bounds sample_client "user-1"
              (User.mk "user-1" "John Doe" "john@example.com" None)
              (sample_tasks [true; false; true; false]))
    as (r & x & Hr & Hx & _ & Hlo & Hhi & _).
  - reflexivity.
  - reflexivity.
  - done.
  - reflexivity.
  - by exists r, x.
Defined.
End more_summary_properties.
